(** * Russian coin triangle puzzle: the geometry engine of [src/App.tsx]

    The program is a React component.  Its logic is embedded here as
    functions over an explicit [State] record (the [useState] cells), one
    function per event handler and one for the completion-check effect.

    JavaScript numbers are IEEE-754 doubles.  The code is translated once,
    over an interface [Number] of the arithmetic it uses, and read at two
    instances:
    - [float] (Rocq's primitive binary64 floats): the program as it runs;
    - [R] (the real numbers): the exact arithmetic the geometry is about.
    Statements on what the program tests are proved for every instance,
    that of doubles included, in terms of the comparisons it computes.
    Statements on Euclidean distances are proved at [R]; where they are
    claimed of the running program they are checked against the exact
    values of the doubles it computes. *)

From Stdlib Require Import List ZArith Bool Arith Lia Reals Lra Floats.
From Stdlib Require Ascii String DecimalString DecimalZ DecimalPos.
Import ListNotations.

(** ** The arithmetic of the source *)

Class Number (T : Type) : Type := {
  num  : Z -> T;           (* an integer literal *)
  add  : T -> T -> T;      (* a + b *)
  sub  : T -> T -> T;      (* a - b *)
  mul  : T -> T -> T;      (* a * b *)
  div  : T -> T -> T;      (* a / b *)
  neg  : T -> T;           (* -a *)
  sqrt : T -> T;           (* Math.sqrt(a) *)
  max  : T -> T -> T;      (* Math.max(a, b) *)
  min  : T -> T -> T;      (* Math.min(a, b) *)
  ltb  : T -> T -> bool;   (* a < b *)
  leb  : T -> T -> bool;   (* a <= b *)
  eqb  : T -> T -> bool    (* a === b *)
}.

Declare Scope js_scope.
Delimit Scope js_scope with js.
Infix ".+" := add (at level 50, left associativity) : js_scope.
Infix ".-" := sub (at level 50, left associativity) : js_scope.
Infix ".*" := mul (at level 40, left associativity) : js_scope.
Infix "./" := div (at level 40, left associativity) : js_scope.
Infix ".<" := ltb (at level 70, no associativity) : js_scope.
Infix ".<=" := leb (at level 70, no associativity) : js_scope.
Notation "a .> b" := (ltb b a) (at level 70, no associativity) : js_scope.
Notation "x <- c ;; k" :=
  (match c with Some x => k | None => None end)
  (at level 61, c at next level, right associativity) : js_scope.
Local Open Scope js_scope.

(** Exact real arithmetic. *)
Definition Rltb (a b : R) : bool := if Rlt_dec a b then true else false.
Definition Rleb (a b : R) : bool := if Rle_dec a b then true else false.
Definition Reqb (a b : R) : bool := if Req_dec_T a b then true else false.

#[export] Instance Number_R : Number R := {
  num := IZR; add := Rplus; sub := Rminus; mul := Rmult; div := Rdiv;
  neg := Ropp; sqrt := R_sqrt.sqrt; max := Rmax; min := Rmin;
  ltb := Rltb; leb := Rleb; eqb := Reqb
}.

(** Binary64 arithmetic.  [Math.max] and [Math.min] return NaN when an
    argument is NaN and order -0 below +0. *)
Definition float_of_Z (z : Z) : float :=
  match z with
  | Z0 => PrimFloat.zero
  | Zpos _ => PrimFloat.of_uint63 (Uint63.of_Z z)
  | Zneg p => PrimFloat.opp (PrimFloat.of_uint63 (Uint63.of_Z (Zpos p)))
  end.

Definition float_max (a b : float) : float :=
  if PrimFloat.is_nan a || PrimFloat.is_nan b then PrimFloat.nan
  else if PrimFloat.ltb a b then b
  else if PrimFloat.ltb b a then a
  else if PrimFloat.get_sign a then b else a.

Definition float_min (a b : float) : float :=
  if PrimFloat.is_nan a || PrimFloat.is_nan b then PrimFloat.nan
  else if PrimFloat.ltb a b then a
  else if PrimFloat.ltb b a then b
  else if PrimFloat.get_sign a then a else b.

#[export] Instance Number_float : Number float := {
  num := float_of_Z; add := PrimFloat.add; sub := PrimFloat.sub;
  mul := PrimFloat.mul; div := PrimFloat.div; neg := PrimFloat.opp;
  sqrt := PrimFloat.sqrt; max := float_max; min := float_min;
  ltb := PrimFloat.ltb; leb := PrimFloat.leb; eqb := PrimFloat.eqb
}.

(** ** Data model (App.tsx, lines 7-17) *)

Set Implicit Arguments.

Module Coin.
Record t (T : Type) : Type := mk {
  id : nat;
  x : T;
  y : T;
  isSelected : bool
}.
End Coin.

Module Position.
Record t (T : Type) : Type := mk {
  x : T;
  y : T
}.
End Position.

Abbreviation Coin := Coin.t.
Abbreviation Position := Position.t.

(** [getDistance] and the occupancy test are called on coins as well as on
    positions (structural typing): a coin is read as the position it has. *)
Definition at_ {T} (c : Coin T) : Position T :=
  Position.mk (Coin.x c) (Coin.y c).

(** The two globals of the browser the module constants are computed from. *)
Record Window (T : Type) : Type := {
  innerWidth : T;
  innerHeight : T
}.

(** The React state cells of [App] that the handlers read and write
    (lines 49-67).  [startTime], [elapsedTime] and [showInstructions] only
    feed the clock and the help panel and are left out.  [moves] counts in
    [nat]: the counter stays far below 2^53, where doubles are exact. *)
Record State (T : Type) : Type := mkState {
  coins : list (Coin T);
  moves : nat;
  bestScore : option nat;
  isComplete : bool;
  selectedCoin : option nat;
  validDropZones : list (Position T)
}.

Unset Implicit Arguments.

(** [Array.prototype.map] with the index, and [Array.prototype.every] with
    the index over a callback that can throw ([None]); [every] stops at the
    first element whose callback answers false. *)
Fixpoint mapi_from {A B} (f : A -> nat -> B) (index : nat) (l : list A) : list B :=
  match l with
  | [] => []
  | a :: l' => f a index :: mapi_from f (S index) l'
  end.

Definition mapi {A B} (f : A -> nat -> B) (l : list A) : list B :=
  mapi_from f 0 l.

Fixpoint every_from {A} (f : A -> nat -> option bool) (index : nat) (l : list A)
  : option bool :=
  match l with
  | [] => Some true
  | a :: l' =>
      match f a index with
      | None => None
      | Some false => Some false
      | Some true => every_from f (S index) l'
      end
  end.

Definition every {A} (f : A -> nat -> option bool) (l : list A) : option bool :=
  every_from f 0 l.

Section Game.

Context {T : Type} {NumT : Number T}.
Variable window : Window T.

(** ** Module constants (lines 19-46) *)

Definition COIN_RADIUS : T :=
  if innerWidth window .< num 768 then num 35 else num 30.
Definition BOARD_WIDTH : T := min (num 600) (innerWidth window .- num 32).
(* 0.5 is written 1/2, which is exact in both instances *)
Definition BOARD_HEIGHT : T :=
  min (num 400) (innerHeight window .* (num 1 ./ num 2)).

Definition centerX : T := BOARD_WIDTH ./ num 2.
Definition centerY : T := BOARD_HEIGHT ./ num 2.

Definition INITIAL_POSITIONS : list (Position T) :=
  [ Position.mk centerX (centerY .- num 60);
    Position.mk (centerX .- num 30) (centerY .- num 8);
    Position.mk (centerX .+ num 30) (centerY .- num 8);
    Position.mk (centerX .- num 60) (centerY .+ num 44);
    Position.mk centerX (centerY .+ num 44);
    Position.mk (centerX .+ num 60) (centerY .+ num 44) ].

Definition TARGET_POSITIONS : list (Position T) :=
  [ Position.mk (centerX .- num 60) (centerY .- num 60);
    Position.mk centerX (centerY .- num 60);
    Position.mk (centerX .+ num 60) (centerY .- num 60);
    Position.mk (centerX .- num 30) (centerY .- num 8);
    Position.mk (centerX .+ num 30) (centerY .- num 8);
    Position.mk centerX (centerY .+ num 44) ].

(** [Math.pow(v, 2)], the product of [v] with itself. *)
Definition pow2 (v : T) : T := v .* v.

(** ** Completion check (lines 83-99) *)

(** The callback of [coins.every]: [TARGET_POSITIONS[index]] is [undefined]
    past the sixth slot and reading [target.x] then throws. *)
Definition nearTarget (coin : Coin T) (index : nat) : option bool :=
  match nth_error TARGET_POSITIONS index with
  | None => None
  | Some target =>
      let distance :=
        sqrt (pow2 (Coin.x coin .- Position.x target)
              .+ pow2 (Coin.y coin .- Position.y target)) in
      Some (distance .< num 20)
  end.

Definition isCompleted (coins : list (Coin T)) : option bool :=
  every nearTarget coins.

(** [!bestScore || moves < bestScore]: [null] and [0] are falsy. *)
Definition beatsBest (moves : nat) (bestScore : option nat) : bool :=
  match bestScore with
  | None => true
  | Some O => true
  | Some b => moves <? b
  end.

Definition completionEffect (s : State T) : option (State T) :=
  match isCompleted (coins s) with
  | None => None
  | Some isCompleted =>
      if isCompleted && negb (isComplete s) then
        Some (mkState (coins s) (moves s)
                (if beatsBest (moves s) (bestScore s)
                 then Some (moves s) else bestScore s)
                true (selectedCoin s) (validDropZones s))
      else Some s
  end.

(** ** Valid drop zones (lines 107-161) *)

Definition getDistance (pos1 pos2 : Position T) : T :=
  sqrt (pow2 (Position.x pos1 .- Position.x pos2)
        .+ pow2 (Position.y pos1 .- Position.y pos2)).

(** Lines 124-141: the two positions computed from a pair, before the
    bounds and occupancy tests; nothing when the pair is too far apart or
    [dist > 0] fails. *)
Definition candidatePositions (coin1 coin2 : Coin T) : list (Position T) :=
  let distance := getDistance (at_ coin1) (at_ coin2) in
  if distance .<= COIN_RADIUS .* num 4 then
    let midX := (Coin.x coin1 .+ Coin.x coin2) ./ num 2 in
    let midY := (Coin.y coin1 .+ Coin.y coin2) ./ num 2 in
    let dx := Coin.x coin2 .- Coin.x coin1 in
    let dy := Coin.y coin2 .- Coin.y coin1 in
    let dist := sqrt (dx .* dx .+ dy .* dy) in
    if dist .> num 0 then
      let perpX := neg dy ./ dist in
      let perpY := dx ./ dist in
      let offset :=
        sqrt (max (num 0)
                ((COIN_RADIUS .* num 2) .* (COIN_RADIUS .* num 2)
                 .- (dist ./ num 2) .* (dist ./ num 2))) in
      let pos1 := Position.mk (midX .+ perpX .* offset) (midY .+ perpY .* offset) in
      let pos2 := Position.mk (midX .- perpX .* offset) (midY .- perpY .* offset) in
      [pos1; pos2]
    else []
  else [].

(** The same lines read with every division checked: [None] stands for a
    division by zero, which JavaScript answers with an infinity or NaN
    rather than with an exception. *)
Definition checkedDiv (a b : T) : option T :=
  if eqb b (num 0) then None else Some (a ./ b).

Definition candidatePositionsChecked (coin1 coin2 : Coin T)
  : option (list (Position T)) :=
  let distance := getDistance (at_ coin1) (at_ coin2) in
  if distance .<= COIN_RADIUS .* num 4 then
    midX <- checkedDiv (Coin.x coin1 .+ Coin.x coin2) (num 2) ;;
    midY <- checkedDiv (Coin.y coin1 .+ Coin.y coin2) (num 2) ;;
    let dx := Coin.x coin2 .- Coin.x coin1 in
    let dy := Coin.y coin2 .- Coin.y coin1 in
    let dist := sqrt (dx .* dx .+ dy .* dy) in
    if dist .> num 0 then
      perpX <- checkedDiv (neg dy) dist ;;
      perpY <- checkedDiv dx dist ;;
      half <- checkedDiv dist (num 2) ;;
      half' <- checkedDiv dist (num 2) ;;
      let offset :=
        sqrt (max (num 0)
                ((COIN_RADIUS .* num 2) .* (COIN_RADIUS .* num 2)
                 .- half .* half')) in
      let pos1 := Position.mk (midX .+ perpX .* offset) (midY .+ perpY .* offset) in
      let pos2 := Position.mk (midX .- perpX .* offset) (midY .- perpY .* offset) in
      Some [pos1; pos2]
    else Some []
  else Some [].

(** Lines 144-154: a candidate is pushed when it is inside the board with a
    margin of one radius and no other coin is nearer than 1.5 radii
    (1.5 is written 3/2, exact in both instances). *)
Definition inBounds (pos : Position T) : bool :=
  (Position.x pos .> COIN_RADIUS)
  && (Position.x pos .< BOARD_WIDTH .- COIN_RADIUS)
  && (Position.y pos .> COIN_RADIUS)
  && (Position.y pos .< BOARD_HEIGHT .- COIN_RADIUS).

Definition occupied (otherCoins : list (Coin T)) (pos : Position T) : bool :=
  existsb (fun c => getDistance (at_ c) pos .< COIN_RADIUS .* (num 3 ./ num 2))
          otherCoins.

Definition accepted (otherCoins : list (Coin T)) (pos : Position T) : bool :=
  inBounds pos && negb (occupied otherCoins pos).

Definition pairZones (otherCoins : list (Coin T)) (coin1 coin2 : Coin T)
  : list (Position T) :=
  filter (accepted otherCoins) (candidatePositions coin1 coin2).

(** The two nested loops: [coin1] runs over the list, [coin2] over what
    follows it, and the zones are pushed in that order. *)
Fixpoint pairLoop (otherCoins rest : list (Coin T)) : list (Position T) :=
  match rest with
  | [] => []
  | coin1 :: rest' =>
      flat_map (pairZones otherCoins coin1) rest' ++ pairLoop otherCoins rest'
  end.

Definition findValidDropZones (coins : list (Coin T)) (coinId : nat)
  : list (Position T) :=
  match find (fun c => Coin.id c =? coinId) coins with
  | None => []
  | Some currentCoin =>
      let otherCoins := filter (fun c => negb (Coin.id c =? coinId)) coins in
      pairLoop otherCoins otherCoins
  end.

(** ** Event handlers (lines 164-210) *)

Definition handleCoinClick (coinId : nat) (s : State T) : State T :=
  if match selectedCoin s with Some sel => sel =? coinId | None => false end
  then
    mkState (map (fun coin => Coin.mk (Coin.id coin) (Coin.x coin) (Coin.y coin) false)
               (coins s))
      (moves s) (bestScore s) (isComplete s) None []
  else
    mkState (map (fun coin => Coin.mk (Coin.id coin) (Coin.x coin) (Coin.y coin)
                               (Coin.id coin =? coinId))
               (coins s))
      (moves s) (bestScore s) (isComplete s) (Some coinId)
      (findValidDropZones (coins s) coinId).

Definition handleZoneClick (zone : Position T) (s : State T) : State T :=
  match selectedCoin s with
  | None => s
  | Some selected =>
      mkState (map (fun coin =>
                      if Coin.id coin =? selected
                      then Coin.mk (Coin.id coin) (Position.x zone) (Position.y zone) false
                      else Coin.mk (Coin.id coin) (Coin.x coin) (Coin.y coin) false)
                 (coins s))
        (moves s + 1) (bestScore s) (isComplete s) None []
  end.

Definition initialCoins : list (Coin T) :=
  mapi (fun pos index => Coin.mk index (Position.x pos) (Position.y pos) false)
       INITIAL_POSITIONS.

Definition resetGame (s : State T) : State T :=
  mkState initialCoins 0 (bestScore s) false None [].

(** The state of the first render, given what local storage held. *)
Definition initialState (saved : option nat) : State T :=
  mkState initialCoins 0 saved false None [].

(** One move of the game: tap the coin, then tap a zone.  [offered] is what
    the first tap puts on the screen to choose from. *)
Definition offered (coinId : nat) (s : State T) : list (Position T) :=
  validDropZones (handleCoinClick coinId s).

Definition moveCoin (coinId : nat) (zone : Position T) (s : State T) : State T :=
  handleZoneClick zone (handleCoinClick coinId s).

(** What the player can do to the board. *)
Inductive Event : Type :=
| CoinClick (coinId : nat)
| ZoneClick (zone : Position T)
| Reset.

Definition step (e : Event) (s : State T) : State T :=
  match e with
  | CoinClick coinId => handleCoinClick coinId s
  | ZoneClick zone => handleZoneClick zone s
  | Reset => resetGame s
  end.

End Game.

(** ** The clock text (lines 101-105) *)

(** [ms] is a whole number of milliseconds, the difference of two
    [Date.now()] values, of magnitude below 2^53: there the quotient
    [ms / 1000] rounds to a double with the same floor as the exact
    quotient, so the two [Math.floor] are the floored divisions of [Z].
    From 2^53 on the doubles of the code round and this model is not the
    code; the statements on it carry that bound.  [%] is the remainder
    that takes the sign of the dividend. *)
Module Clock.

Import Ascii String.
Local Open Scope string_scope.

(** [n.toString()] of a whole number. *)
Definition toString (z : Z) : string :=
  DecimalString.NilZero.string_of_int (Z.to_int z).

Fixpoint zeros (n : nat) : string :=
  match n with
  | O => ""
  | S n' => String "0" (zeros n')
  end.

(** [str.padStart(targetLength, '0')] *)
Definition padStart (targetLength : nat) (str : string) : string :=
  zeros (targetLength - length str) ++ str.

Definition formatTime (ms : Z) : string :=
  let seconds := (ms / 1000)%Z in
  let minutes := (seconds / 60)%Z in
  toString minutes ++ ":" ++ padStart 2 (toString (Z.rem seconds 60)).

(** Reading a clock text back: the whole numbers before and after the
    first colon. *)
Fixpoint splitColon (s : string) : option (string * string) :=
  match s with
  | "" => None
  | String c s' =>
      if Ascii.eqb c ":" then Some ("", s')
      else match splitColon s' with
           | Some (a, b) => Some (String c a, b)
           | None => None
           end
  end.

Definition readInt (s : string) : option Z :=
  option_map Z.of_int (DecimalString.NilZero.int_of_string s).

Definition parseClock (s : string) : option (Z * Z) :=
  match splitColon s with
  | Some (a, b) =>
      match readInt a, readInt b with
      | Some minutes, Some seconds => Some (minutes, seconds)
      | _, _ => None
      end
  | None => None
  end.

End Clock.

(** * Vocabulary of the statements *)

Section Vocabulary.

Context {T : Type} {NumT : Number T}.
Variable window : Window T.

(** What a coin contributes to the layout: its identity and its position,
    without the selection flag. *)
Definition placement (c : Coin T) : nat * T * T :=
  (Coin.id c, Coin.x c, Coin.y c).

(** The check of one identity: the coin that carries it against the target
    slot of the same number. *)
Definition nearSlot (coins : list (Coin T)) (i : nat) : bool :=
  match find (fun c => Coin.id c =? i) coins,
        nth_error (TARGET_POSITIONS window) i with
  | Some coin, Some target => getDistance (at_ coin) target .< num 20
  | _, _ => false
  end.

(** The layout once coin 0 has been moved: the five other coins are where
    the initial layout has them. *)
Definition coin0At (zone : Position T) : list (Coin T) :=
  Coin.mk 0 (Position.x zone) (Position.y zone) false :: tl (initialCoins window).

(** The state after a sequence of events. *)
Definition run (events : list (Event (T:=T))) (s : State T) : State T :=
  fold_left (fun s e => step window e s) events s.

(** Every coin of the layout whose identity is not in [moved] is where the
    initial layout has the coin of that place. *)
Definition restInPlace (moved : list nat) (coins : list (Coin T)) : Prop :=
  Forall2 (fun coin init =>
             Coin.id coin = Coin.id init /\
             (In (Coin.id coin) moved \/ at_ coin = at_ init))
          coins (initialCoins window).

(** At most [moves] coins have left their initial position. *)
Definition movedWithinCount (s : State T) : Prop :=
  exists moved, NoDup moved /\ length moved <= moves s /\ restInPlace moved (coins s).

(** A layout with the six coins at given positions, in the order of their
    identities. *)
Definition layoutAt (positions : list (Position T)) : list (Coin T) :=
  mapi (fun pos index => Coin.mk index (Position.x pos) (Position.y pos) false)
       positions.

End Vocabulary.

(** * The application as a transition system *)

Section Application.

Context {T : Type} {NumT : Number T}.
Variable window : Window T.

(** One turn of the application: a handler, then the completion effect of
    the render that follows it. *)
Definition turn (e : Event (T:=T)) (s : State T) : option (State T) :=
  completionEffect window (step window e s).

(** What the screen lets the player do (lines 284-350 and 378): tap a coin
    of the layout, tap one of the displayed zones, press the reset button. *)
Definition enabled (s : State T) (e : Event (T:=T)) : Prop :=
  match e with
  | CoinClick coinId => In coinId (map (@Coin.id T) (coins s))
  | ZoneClick zone => In zone (validDropZones s)
  | Reset => True
  end.

(** The states a game can be in, from what local storage held at the
    first render. *)
Inductive Reachable (saved : option nat) : State T -> Prop :=
| Reachable_first (s : State T) :
    completionEffect window (initialState window saved) = Some s ->
    Reachable saved s
| Reachable_turn (s s' : State T) (e : Event (T:=T)) :
    Reachable saved s -> enabled s e -> turn e s = Some s' ->
    Reachable saved s'.

(** The selection cell, the displayed zones and the flags of the coins
    tell the same story. *)
Definition selectionConsistent (s : State T) : Prop :=
  match selectedCoin s with
  | None =>
      validDropZones s = [] /\
      Forall (fun c => Coin.isSelected c = false) (coins s)
  | Some coinId =>
      validDropZones s = findValidDropZones window (coins s) coinId /\
      Forall (fun c => Coin.isSelected c = (Coin.id c =? coinId)) (coins s)
  end.

(** Two layouts that agree on every coin but, possibly, on where the coin
    [coinId] is. *)
Definition sameButCoin (coinId : nat) (l l' : list (Coin T)) : Prop :=
  Forall2 (fun c c' =>
             Coin.id c = Coin.id c' /\
             (Coin.id c = coinId \/ at_ c = at_ c'))
          l l'.

End Application.

(** The Euclidean distance of the plane, written independently of the
    program. *)
Definition Euclid (p q : Position R) : R :=
  R_sqrt.sqrt ((Position.x p - Position.x q)² + (Position.y p - Position.y q)²)%R.

(** Any two coins of different identities are at least 1.5 radii apart. *)
Definition apart (w : Window R) (coins : list (Coin R)) : Prop :=
  forall c c', In c coins -> In c' coins -> Coin.id c <> Coin.id c' ->
               (1.5 * COIN_RADIUS w <= Euclid (at_ c) (at_ c'))%R.

(** A position strictly inside the board with a margin of one radius. *)
Definition insideBoard (w : Window R) (p : Position R) : Prop :=
  (COIN_RADIUS w < Position.x p < BOARD_WIDTH w - COIN_RADIUS w)%R /\
  (COIN_RADIUS w < Position.y p < BOARD_HEIGHT w - COIN_RADIUS w)%R.

(** Every coin is where the initial layout has it or inside the board. *)
Definition homeOrInside (w : Window R) (coins : list (Coin R)) : Prop :=
  Forall2 (fun c init => at_ c = at_ init \/ insideBoard w (at_ c))
          coins (initialCoins w).

(** What a game keeps in exact arithmetic: the coins that have left
    their initial position are no more than the moves counted, no two
    coins overlap, no coin has been put outside the board, and a
    completion or a best score is only recorded from six moves on and
    never above a positive saved score. *)
Definition gameInvariant (w : Window R) (saved : option nat) (s : State R) : Prop :=
  movedWithinCount w s /\
  apart w (coins s) /\
  homeOrInside w (coins s) /\
  (isComplete s = true -> 6 <= moves s) /\
  (bestScore s = saved \/ exists m, bestScore s = Some m /\ 6 <= m) /\
  (forall b, saved = Some b -> 0 < b ->
             exists b', bestScore s = Some b' /\ 0 < b' <= b).

(** A desktop browser window of 1024 by 800 pixels: radius 30, board 600
    by 400; in doubles and in exact arithmetic. *)
Definition desktop : Window float :=
  Build_Window (float_of_Z 1024) (float_of_Z 800).

Definition desktopR : Window R := Build_Window 1024%R 800%R.

(** The [k]-th zone the desktop board offers for coin 0. *)
Definition nthZone (k : nat) (s : State float) : Position float :=
  nth k (offered desktop 0 s) (Position.mk PrimFloat.zero PrimFloat.zero).

(** Coins used to exercise the statements. *)
Definition coinAt {T} `{Number T} (id : nat) (x y : Z) : Coin T :=
  Coin.mk id (num x) (num y) false.

(** A finished game on the desktop board: the coins on the target slots
    after six moves, the completion recorded; and the state one tap on
    coin 0 later. *)
Definition solved : State float :=
  mkState (layoutAt (TARGET_POSITIONS desktop)) 6 (Some 6) true None [].

Definition solvedTapped : State float :=
  match turn desktop (CoinClick 0) solved with
  | Some s => s
  | None => solved
  end.

(** The first game on the desktop board with coin 0 tapped, and then put
    on the second zone offered. *)
Definition desktopSelected : State float :=
  match turn desktop (CoinClick 0) (initialState desktop None) with
  | Some s => s
  | None => initialState desktop None
  end.

Definition desktopMoved : State float :=
  match turn desktop (ZoneClick (nthZone 1 (initialState desktop None)))
             desktopSelected with
  | Some s => s
  | None => desktopSelected
  end.

(** A window 100 pixels high: the board is 50 high, less than two radii. *)
Definition flatWindow : Window R := Build_Window 1024%R 100%R.

(** Every coin tapped and sent to the target slot of its own identity. *)
Definition sixMoves (w : Window R) : list (Event (T:=R)) :=
  flat_map (fun it => [CoinClick (fst it); ZoneClick (snd it)])
           (combine (seq 0 6) (TARGET_POSITIONS w)).

(** The target layout with coins 0 and 1 exchanged. *)
Definition swappedTargets : list (Coin float) :=
  match layoutAt (TARGET_POSITIONS desktop) with
  | c0 :: c1 :: rest =>
      Coin.mk 0 (Coin.x c1) (Coin.y c1) false
      :: Coin.mk 1 (Coin.x c0) (Coin.y c0) false :: rest
  | l => l
  end.

(** ** Exact values of doubles *)

(** The exact value of a finite double, as a whole number [m] and an
    exponent [e]: the double is [m * 2^e]. *)
Definition exactValue (f : float) : option (Z * Z) :=
  match Prim2SF f with
  | S754_zero _ => Some (0, 0)%Z
  | S754_finite s m e => Some (if s then Zneg m else Zpos m, e)
  | _ => None
  end.

(** [m1 * 2^e1 - m2 * 2^e2], exactly. *)
Definition exactSub (a b : Z * Z) : Z * Z :=
  let e := Z.min (snd a) (snd b) in
  (fst a * 2 ^ (snd a - e) - fst b * 2 ^ (snd b - e), e)%Z.

(** The square of the exact Euclidean distance of two positions. *)
Definition exactSquare (p q : Position float) : option (Z * Z) :=
  match exactValue (Position.x p), exactValue (Position.y p),
        exactValue (Position.x q), exactValue (Position.y q) with
  | Some px, Some py, Some qx, Some qy =>
      let dx := exactSub px qx in
      let dy := exactSub py qy in
      let e := Z.min (2 * snd dx) (2 * snd dy) in
      Some (fst dx * fst dx * 2 ^ (2 * snd dx - e)
            + fst dy * fst dy * 2 ^ (2 * snd dy - e), e)%Z
  | _, _, _, _ => None
  end.

(** The exact distance is below, or above, the fraction [a / b]. *)
Definition exactBelow (a b : Z) (p q : Position float) : bool :=
  match exactSquare p q with
  | Some (n, e) =>
      if (0 <=? e)%Z then (b * b * n * 2 ^ e <? a * a)%Z
      else (b * b * n <? a * a * 2 ^ (- e))%Z
  | None => false
  end.


(** [x] divided by two [n] times. *)
Fixpoint halved (n : nat) (x : float) : float :=
  match n with
  | O => x
  | S n' => halved n' (x ./ num 2)
  end.

(** Coin 0 a hair inside the circle of radius 20 around its slot
    (240, 140): at (260 - 2^-44, 140 + 52387293 * 2^-45). *)
Definition nearCoin0 : Coin float :=
  Coin.mk 0 (num 260 .- halved 44 (num 1)) (num 140 .+ halved 45 (num 52387293)) false.

(** That coin with the five others on their slots. *)
Definition nearLayout : list (Coin float) :=
  nearCoin0 :: tl (layoutAt (TARGET_POSITIONS desktop)).

(** A coin a hair inside the circle of radius 45 around (260, 200): at
    (305 - 2^-43, 200 + 112000000 * 2^-45); and a layout in which coins 1
    and 2, four radii apart, have (260, 200) as their midpoint. *)
Definition crowdCoin3 : Coin float :=
  Coin.mk 3 (num 305 .- halved 43 (num 1)) (num 200 .+ halved 45 (num 112000000)) false.

Definition crowdedLayout : list (Coin float) :=
  [ coinAt 0 500 350; coinAt 1 260 140; coinAt 2 260 260;
    crowdCoin3; coinAt 4 500 100; coinAt 5 100 350 ].


(** The states of the desktop board after one move through the screen
    (a coin tapped, one of its offered zones tapped), and after at most
    [n] such moves. *)
Definition nextStates (s : State float) : list (State float) :=
  flat_map (fun coinId =>
              map (fun zone => moveCoin desktop coinId zone s)
                  (offered desktop coinId s))
           (seq 0 6).

Fixpoint statesWithin (n : nat) (s : State float) : list (State float) :=
  match n with
  | O => [s]
  | S n' => s :: flat_map (statesWithin n') (nextStates s)
  end.

(** The pairs of a list, each element with those that follow it. *)
Fixpoint pairsOf {A} (l : list A) : list (A * A) :=
  match l with
  | [] => []
  | a :: l' => map (fun b => (a, b)) l' ++ pairsOf l'
  end.



(** * Facts about lists *)

Lemma map_cons_eq {A B} (f : A -> B) (a a' : A) (l l' : list A) :
  map f (a :: l) = map f (a' :: l') -> f a = f a' /\ map f l = map f l'.
Proof. simpl. intro H. injection H as H1 H2. split; assumption. Qed.

Lemma Some_eq_iff {A} (a b : A) : Some a = Some b <-> a = b.
Proof. split; [intro H; now injection H | now intros ->]. Qed.

Lemma forallb_false_exists {A} (f : A -> bool) (l : list A) :
  forallb f l = false <-> exists a, In a l /\ f a = false.
Proof.
  induction l as [|a l IH]; simpl.
  - split; [discriminate | intros [a [[] _]]].
  - rewrite andb_false_iff, IH. split.
    + intros [H | [b [Hb Hf]]]; [exists a | exists b]; auto.
    + intros [b [[-> | Hb] Hf]]; [left | right; exists b]; auto.
Qed.

Lemma existsb_false_forall {A} (f : A -> bool) (l : list A) :
  existsb f l = false -> forall a, In a l -> f a = false.
Proof.
  intros H a Ha. destruct (f a) eqn:E; [|reflexivity].
  rewrite <- H. symmetry. apply existsb_exists. exists a. auto.
Qed.

Lemma Forall2_In_left {A B} (P : A -> B -> Prop) (l : list A) (l' : list B) (a : A) :
  Forall2 P l l' -> In a l -> exists b, In b l' /\ P a b.
Proof.
  intro H. induction H as [|x y l l' Hxy _ IH]; simpl; [tauto|].
  intros [<- | Ha].
  - exists y. auto.
  - destruct (IH Ha) as (b & Hb & Hab). exists b. auto.
Qed.

(** * Facts that hold for every arithmetic *)

Section Generic.

Context {T : Type} {NumT : Number T}.
Variable window : Window T.

Lemma mapi_from_id (l : list (Position T)) (n : nat) :
  map (@Coin.id T)
      (mapi_from (fun pos index =>
                    Coin.mk index (Position.x pos) (Position.y pos) false) n l)
  = seq n (length l).
Proof.
  revert n; induction l as [|pos l IH]; intro n; simpl.
  - reflexivity.
  - now rewrite IH.
Qed.

Lemma initialCoins_ids : map (@Coin.id T) (initialCoins window) = seq 0 6.
Proof. unfold initialCoins, mapi. now rewrite mapi_from_id. Qed.

Lemma handleCoinClick_ids (coinId : nat) (s : State T) :
  map (@Coin.id T) (coins (handleCoinClick window coinId s))
  = map (@Coin.id T) (coins s).
Proof.
  unfold handleCoinClick.
  destruct (match selectedCoin s with Some sel => sel =? coinId | None => false end);
    simpl; rewrite map_map; reflexivity.
Qed.

Lemma handleZoneClick_ids (zone : Position T) (s : State T) :
  map (@Coin.id T) (coins (handleZoneClick zone s)) = map (@Coin.id T) (coins s).
Proof.
  unfold handleZoneClick.
  destruct (selectedCoin s) as [selected|]; [|reflexivity].
  simpl. rewrite map_map. apply map_ext.
  intro coin. now destruct (Coin.id coin =? selected).
Qed.

Lemma placement_eq (c c' : Coin T) :
  placement c = placement c' ->
  Coin.id c = Coin.id c' /\ at_ c = at_ c'.
Proof.
  destruct c, c'; unfold placement, at_; simpl.
  intro H; injection H as -> -> ->. split; reflexivity.
Qed.

Lemma candidatePositions_at (a a' b b' : Coin T) :
  at_ a = at_ a' -> at_ b = at_ b' ->
  candidatePositions window a b = candidatePositions window a' b'.
Proof.
  destruct a, a', b, b'; unfold at_; simpl.
  intros Ha Hb; injection Ha as -> ->; injection Hb as -> ->. reflexivity.
Qed.

Lemma occupied_placement (l l' : list (Coin T)) (pos : Position T) :
  map placement l = map placement l' ->
  occupied window l pos = occupied window l' pos.
Proof.
  unfold occupied. revert l'.
  induction l as [|c l IH]; intros [|c' l'] H; try discriminate H; simpl.
  - reflexivity.
  - apply map_cons_eq in H as [Hc Hl].
    apply placement_eq in Hc as [_ Hc].
    rewrite (IH l' Hl). now rewrite Hc.
Qed.

Lemma pairZones_placement (l l' : list (Coin T)) (a a' b b' : Coin T) :
  map placement l = map placement l' ->
  placement a = placement a' -> placement b = placement b' ->
  pairZones window l a b = pairZones window l' a' b'.
Proof.
  intros Hl Ha Hb. unfold pairZones.
  apply placement_eq in Ha as [_ Ha]. apply placement_eq in Hb as [_ Hb].
  rewrite (candidatePositions_at _ _ _ _ Ha Hb).
  apply filter_ext. intro pos. unfold accepted.
  now rewrite (occupied_placement _ _ _ Hl).
Qed.

Lemma flat_map_pairZones_placement (l l' r r' : list (Coin T)) (a a' : Coin T) :
  map placement l = map placement l' ->
  placement a = placement a' ->
  map placement r = map placement r' ->
  flat_map (pairZones window l a) r = flat_map (pairZones window l' a') r'.
Proof.
  intros Hl Ha. revert r'.
  induction r as [|b r IH]; intros [|b' r'] Hr; try discriminate Hr; simpl.
  - reflexivity.
  - apply map_cons_eq in Hr as [Hb Hr].
    now rewrite (pairZones_placement _ _ _ _ _ _ Hl Ha Hb), (IH r' Hr).
Qed.

Lemma pairLoop_placement (l l' r r' : list (Coin T)) :
  map placement l = map placement l' ->
  map placement r = map placement r' ->
  pairLoop window l r = pairLoop window l' r'.
Proof.
  intro Hl. revert r'.
  induction r as [|a r IH]; intros [|a' r'] Hr; try discriminate Hr; simpl.
  - reflexivity.
  - apply map_cons_eq in Hr as [Ha Hr].
    now rewrite (flat_map_pairZones_placement _ _ _ _ _ _ Hl Ha Hr), (IH r' Hr).
Qed.

Lemma filter_placement (f : nat -> bool) (l l' : list (Coin T)) :
  map placement l = map placement l' ->
  map placement (filter (fun c => f (Coin.id c)) l)
  = map placement (filter (fun c => f (Coin.id c)) l').
Proof.
  revert l'.
  induction l as [|c l IH]; intros [|c' l'] H; try discriminate H; simpl.
  - reflexivity.
  - apply map_cons_eq in H as [Hc Hl].
    destruct (placement_eq _ _ Hc) as [Hid _]. rewrite <- Hid.
    destruct (f (Coin.id c)); simpl; [rewrite Hc; f_equal|]; now apply IH.
Qed.

Lemma find_placement (f : nat -> bool) (l l' : list (Coin T)) :
  map placement l = map placement l' ->
  (find (fun c => f (Coin.id c)) l = None
   <-> find (fun c => f (Coin.id c)) l' = None).
Proof.
  revert l'.
  induction l as [|c l IH]; intros [|c' l'] H; try discriminate H; simpl.
  - tauto.
  - apply map_cons_eq in H as [Hc Hl].
    destruct (placement_eq _ _ Hc) as [Hid _]. rewrite <- Hid.
    destruct (f (Coin.id c)); [split; discriminate | now apply IH].
Qed.

Lemma findValidDropZones_placement (l l' : list (Coin T)) (coinId : nat) :
  map placement l = map placement l' ->
  findValidDropZones window l coinId = findValidDropZones window l' coinId.
Proof.
  intro H. unfold findValidDropZones.
  pose proof (find_placement (fun i => i =? coinId) _ _ H) as Hfind.
  pose proof (filter_placement (fun i => negb (i =? coinId)) _ _ H) as Hfilter.
  destruct (find (fun c => Coin.id c =? coinId) l) as [c|];
    destruct (find (fun c => Coin.id c =? coinId) l') as [c'|]; try reflexivity.
  - now apply pairLoop_placement.
  - destruct Hfind as [_ Hfind]. discriminate (Hfind eq_refl).
  - destruct Hfind as [Hfind _]. discriminate (Hfind eq_refl).
Qed.

(** The completion effect only writes the completion flag and the best
    score. *)
Lemma completionEffect_frame (s s' : State T) :
  completionEffect window s = Some s' ->
  coins s' = coins s /\ moves s' = moves s /\
  selectedCoin s' = selectedCoin s /\ validDropZones s' = validDropZones s.
Proof.
  unfold completionEffect.
  destruct (isCompleted window (coins s)) as [b|]; [|discriminate].
  destruct (b && negb (isComplete s)); intro H; injection H as <-;
    repeat split; reflexivity.
Qed.

(** Where a zone of the result comes from. *)
Lemma pairLoop_In (others rest : list (Coin T)) (zone : Position T) :
  In zone (pairLoop window others rest) ->
  exists coin1 coin2,
    In coin1 rest /\ In coin2 rest /\ In zone (pairZones window others coin1 coin2).
Proof.
  induction rest as [|a rest IH]; simpl; [tauto|].
  rewrite in_app_iff, in_flat_map.
  intros [[b [Hb Hz]] | Hz].
  - exists a, b. auto.
  - destruct (IH Hz) as (c1 & c2 & H1 & H2 & H3). exists c1, c2. auto.
Qed.

Lemma findValidDropZones_In (coins : list (Coin T)) (coinId : nat) (zone : Position T) :
  In zone (findValidDropZones window coins coinId) ->
  let otherCoins := filter (fun c => negb (Coin.id c =? coinId)) coins in
  exists coin1 coin2,
    In coin1 otherCoins /\ In coin2 otherCoins /\
    In zone (candidatePositions window coin1 coin2) /\
    accepted window otherCoins zone = true.
Proof.
  unfold findValidDropZones.
  destruct (find (fun c => Coin.id c =? coinId) coins); simpl; [|tauto].
  intro H. apply pairLoop_In in H as (c1 & c2 & H1 & H2 & H3).
  unfold pairZones in H3. apply filter_In in H3 as [H3 H4].
  exists c1, c2. auto.
Qed.

End Generic.

Section GenericClaims.

Context {T : Type} {NumT : Number T}.
Variable window : Window T.

Lemma isCompleted_six (coins : list (Coin T)) :
  map (@Coin.id T) coins = seq 0 6 ->
  isCompleted window coins = Some (forallb (nearSlot window coins) (seq 0 6)).
Proof.
  intro H.
  destruct coins as [|[i0 x0 y0 f0] [|[i1 x1 y1 f1] [|[i2 x2 y2 f2]
    [|[i3 x3 y3 f3] [|[i4 x4 y4 f4] [|[i5 x5 y5 f5] [|c6 l]]]]]]];
    try discriminate H.
  simpl in H. injection H as -> -> -> -> -> ->.
  unfold isCompleted, every, nearSlot, nearTarget, getDistance; simpl.
  repeat match goal with
         | |- context [?a .< ?b] => destruct (a .< b); simpl; try reflexivity
         end.
Qed.

(** C5: applying a move puts the selected coin on the destination, leaves
    the position of every other coin as it was, keeps every identity and
    adds exactly one to the move counter. *)
Theorem handleZoneClick_moves_one_coin
  (zone : Position T) (s : State T) (selected : nat) :
  selectedCoin s = Some selected ->
  moves (handleZoneClick zone s) = moves s + 1 /\
  Forall2 (fun coin coin' =>
             Coin.id coin' = Coin.id coin /\
             at_ coin' = if Coin.id coin =? selected then zone else at_ coin)
          (coins s) (coins (handleZoneClick zone s)).
Proof.
  intro Hsel. unfold handleZoneClick. rewrite Hsel. simpl.
  split; [reflexivity|].
  induction (coins s) as [|coin l IH]; simpl; constructor; [|exact IH].
  destruct (Coin.id coin =? selected); simpl; split; try reflexivity.
  now destruct zone.
Qed.

(** C6: a coin click, a zone click and a reset each keep a layout of six
    coins carrying the identities 0 to 5, and none of them changes the
    identity found at any place of the layout. *)
Theorem step_preserves_identities (e : Event) (s : State T) :
  map (@Coin.id T) (coins s) = seq 0 6 ->
  length (coins (step window e s)) = 6 /\
  map (@Coin.id T) (coins (step window e s)) = seq 0 6 /\
  map (@Coin.id T) (coins (step window e s)) = map (@Coin.id T) (coins s).
Proof.
  intro H.
  assert (Hids : map (@Coin.id T) (coins (step window e s)) = seq 0 6).
  { destruct e as [coinId|zone|]; cbn [step].
    - now rewrite handleCoinClick_ids.
    - now rewrite handleZoneClick_ids.
    - exact (initialCoins_ids window). }
  split; [|split].
  - rewrite <- (length_map (@Coin.id T)), Hids. reflexivity.
  - exact Hids.
  - now rewrite Hids, H.
Qed.

(** C7: two invocations of [findValidDropZones] with the same coin
    identity on layouts that agree on every identity and position (they may
    differ in selection flags, the only thing a query leaves behind) return
    the same zones, so the same set of zones. *)
Theorem findValidDropZones_same_layout
  (coins coins' : list (Coin T)) (coinId : nat) :
  map placement coins = map placement coins' ->
  findValidDropZones window coins coinId = findValidDropZones window coins' coinId
  /\ forall zone,
       In zone (findValidDropZones window coins coinId)
       <-> In zone (findValidDropZones window coins' coinId).
Proof.
  intro H. pose proof (findValidDropZones_placement window _ _ coinId H) as E.
  split; [exact E|]. intro zone. rewrite E. tauto.
Qed.

(** C9: when no coin of the layout carries the selected identity the
    result is the empty list. *)
Theorem findValidDropZones_unknown_coin (coins : list (Coin T)) (coinId : nat) :
  ~ In coinId (map (@Coin.id T) coins) ->
  findValidDropZones window coins coinId = [].
Proof.
  intro H. unfold findValidDropZones.
  destruct (find (fun c => Coin.id c =? coinId) coins) as [c|] eqn:E;
    [|reflexivity].
  apply find_some in E as [Hin Hid]. apply Nat.eqb_eq in Hid.
  exfalso. apply H. rewrite <- Hid. now apply in_map.
Qed.

(** C10: a zone click while no coin is selected leaves the whole state as
    it was: every coin, the move counter and everything else. *)
Theorem handleZoneClick_nothing_selected (zone : Position T) (s : State T) :
  selectedCoin s = None ->
  handleZoneClick zone s = s.
Proof. intro H. unfold handleZoneClick. now rewrite H. Qed.

End GenericClaims.

(** * Exact arithmetic: the statements on Euclidean distances *)

Section Exact.

Local Open Scope R_scope.

Lemma getDistance_Euclid (p q : Position R) : getDistance p q = Euclid p q.
Proof. reflexivity. Qed.

Lemma Rltb_true (a b : R) : Rltb a b = true <-> a < b.
Proof. unfold Rltb. destruct (Rlt_dec a b); split; intros; try discriminate; tauto. Qed.

Lemma Rltb_false (a b : R) : Rltb a b = false <-> b <= a.
Proof.
  unfold Rltb. destruct (Rlt_dec a b); split; intros; try discriminate; try lra.
Qed.

Lemma Rleb_true (a b : R) : Rleb a b = true <-> a <= b.
Proof. unfold Rleb. destruct (Rle_dec a b); split; intros; try discriminate; tauto. Qed.

(** Under the layout invariant every identity below six has its coin and
    its target slot, and the program's test on them is the comparison of
    their Euclidean distance with 20. *)
Lemma nearSlot_Euclid (w : Window R) (coins : list (Coin R)) (i : nat) :
  map (@Coin.id R) coins = seq 0 6 -> (i < 6)%nat ->
  exists coin target,
    find (fun c => Coin.id c =? i)%nat coins = Some coin /\
    nth_error (TARGET_POSITIONS w) i = Some target /\
    nearSlot w coins i = Rltb (Euclid (at_ coin) target) 20.
Proof.
  intros H Hi.
  destruct coins as [|[i0 x0 y0 f0] [|[i1 x1 y1 f1] [|[i2 x2 y2 f2]
    [|[i3 x3 y3 f3] [|[i4 x4 y4 f4] [|[i5 x5 y5 f5] [|c6 l]]]]]]];
    try discriminate H.
  simpl in H. injection H as -> -> -> -> -> ->.
  do 6 (destruct i as [|i]; [eexists; eexists; repeat split; reflexivity|]).
  lia.
Qed.

(** Read in exact arithmetic, the completion check compares Euclidean
    distances: on a layout of six coins with the identities 0 to 5 it
    answers true exactly when every coin is at Euclidean distance less
    than 20 from the target slot of its own identity.  Doubles round the
    distance before the comparison. *)
Lemma isCompleted_iff_all_near (w : Window R) (coins : list (Coin R)) :
  map (@Coin.id R) coins = seq 0 6 ->
  (isCompleted w coins = Some true <->
   forall i, (i < 6)%nat ->
     exists coin target,
       find (fun c => Coin.id c =? i)%nat coins = Some coin /\
       nth_error (TARGET_POSITIONS w) i = Some target /\
       Euclid (at_ coin) target < 20)
  /\
  (isCompleted w coins = Some false <->
   exists i coin target,
     (i < 6)%nat /\
     find (fun c => Coin.id c =? i)%nat coins = Some coin /\
     nth_error (TARGET_POSITIONS w) i = Some target /\
     20 <= Euclid (at_ coin) target).
Proof.
  intro H. rewrite (isCompleted_six w coins H), !Some_eq_iff. split; split.
  - intros E i Hi. rewrite forallb_forall in E.
    destruct (nearSlot_Euclid w coins i H Hi) as (coin & target & Hc & Ht & Hn).
    exists coin, target. repeat split; try assumption.
    apply Rltb_true. rewrite <- Hn. apply E. apply in_seq. lia.
  - intro E. apply forallb_forall. intros i Hi.
    apply in_seq in Hi.
    destruct (E i ltac:(lia)) as (coin & target & Hc & Ht & Hd).
    unfold nearSlot. rewrite Hc, Ht. now apply Rltb_true.
  - intro E. apply forallb_false_exists in E as (i & Hi & E).
    apply in_seq in Hi.
    destruct (nearSlot_Euclid w coins i H ltac:(lia)) as (coin & target & Hc & Ht & Hn).
    exists i, coin, target. repeat split; try assumption; try lia.
    apply Rltb_false. now rewrite <- Hn.
  - intros (i & coin & target & Hi & Hc & Ht & Hd).
    apply forallb_false_exists. exists i. split; [apply in_seq; lia|].
    unfold nearSlot. rewrite Hc, Ht. now apply Rltb_false.
Qed.

(** Read in exact arithmetic, every zone returned by
    [findValidDropZones] is at Euclidean distance at least 1.5 radii from
    every coin other than the selected one and lies in the rectangle from
    [radius] to [board_width - radius] by [radius] to
    [board_height - radius]. *)
Lemma zones_clear_and_inside (w : Window R) (coins : list (Coin R)) (coinId : nat) :
  Forall (fun zone =>
            (forall c, In c coins -> Coin.id c <> coinId ->
                       1.5 * COIN_RADIUS w <= Euclid (at_ c) zone) /\
            COIN_RADIUS w <= Position.x zone <= BOARD_WIDTH w - COIN_RADIUS w /\
            COIN_RADIUS w <= Position.y zone <= BOARD_HEIGHT w - COIN_RADIUS w)
         (findValidDropZones w coins coinId).
Proof.
  apply Forall_forall. intros zone Hz.
  apply findValidDropZones_In in Hz as (c1 & c2 & _ & _ & _ & Hacc).
  unfold accepted, inBounds in Hacc.
  repeat (apply andb_true_iff in Hacc as [Hacc ?]).
  repeat match goal with
         | H : (_ .< _) = true |- _ => apply Rltb_true in H
         end.
  cbn [sub Number_R] in *.
  split; [|lra].
  intros c Hc Hid.
  match goal with H : negb _ = true |- _ => apply negb_true_iff in H; rename H into Hocc end.
  unfold occupied in Hocc.
  pose proof (existsb_false_forall _ _ Hocc c) as Hfar.
  cbv beta in Hfar. rewrite getDistance_Euclid in Hfar.
  apply Rltb_false in Hfar.
  - cbn [mul div num Number_R] in Hfar. lra.
  - apply filter_In. split; [exact Hc|].
    apply negb_true_iff. now apply Nat.eqb_neq.
Qed.


Lemma COIN_RADIUS_cases (w : Window R) : COIN_RADIUS w = 35 \/ COIN_RADIUS w = 30.
Proof.
  unfold COIN_RADIUS. destruct (innerWidth w .< num 768); [left | right]; reflexivity.
Qed.

Lemma dist_swap (x1 y1 x2 y2 : R) :
  (x2 - x1) * (x2 - x1) + (y2 - y1) * (y2 - y1) = (x1 - x2)² + (y1 - y2)².
Proof. unfold Rsqr. ring. Qed.

Lemma tangent_algebra (x1 y1 x2 y2 d off r s : R) :
  d <> 0 ->
  d * d = (x2 - x1) * (x2 - x1) + (y2 - y1) * (y2 - y1) ->
  off * off = 2 * r * (2 * r) - d / 2 * (d / 2) ->
  s = 1 \/ s = -1 ->
  ((x1 + x2) / 2 + s * (- (y2 - y1) / d * off) - x1)²
  + ((y1 + y2) / 2 + s * ((x2 - x1) / d * off) - y1)² = (2 * r)² /\
  ((x1 + x2) / 2 + s * (- (y2 - y1) / d * off) - x2)²
  + ((y1 + y2) / 2 + s * ((x2 - x1) / d * off) - y2)² = (2 * r)².
Proof.
  intros Hd Hdd Hoff Hs.
  assert (Hss : s * s = 1) by (destruct Hs; subst; ring).
  set (D := (x2 - x1) * (x2 - x1) + (y2 - y1) * (y2 - y1)) in *.
  unfold Rsqr. split.
  - replace (_ + _) with (D / 4 + (s * s) * (off * off) * (D / (d * d)))
      by (unfold D; field; exact Hd).
    rewrite Hss, Hoff, <- Hdd. field. exact Hd.
  - replace (_ + _) with (D / 4 + (s * s) * (off * off) * (D / (d * d)))
      by (unfold D; field; exact Hd).
    rewrite Hss, Hoff, <- Hdd. field. exact Hd.
Qed.

(** Read in exact arithmetic, two coins at positive Euclidean distance
    of at most four radii give two candidate positions, each at Euclidean
    distance exactly two radii from both coins. *)
Lemma candidates_tangent (w : Window R) (coin1 coin2 : Coin R) :
  0 < Euclid (at_ coin1) (at_ coin2) <= 4 * COIN_RADIUS w ->
  length (candidatePositions w coin1 coin2) = 2%nat /\
  Forall (fun pos =>
            Euclid pos (at_ coin1) = 2 * COIN_RADIUS w /\
            Euclid pos (at_ coin2) = 2 * COIN_RADIUS w)
         (candidatePositions w coin1 coin2).
Proof.
  destruct coin1 as [i1 x1 y1 f1], coin2 as [i2 x2 y2 f2].
  unfold Euclid, candidatePositions, getDistance, pow2; cbn.
  rewrite <- (dist_swap x1 y1 x2 y2).
  replace ((x1 - x2) * (x1 - x2) + (y1 - y2) * (y1 - y2))
    with ((x2 - x1) * (x2 - x1) + (y2 - y1) * (y2 - y1)) by ring.
  set (D := (x2 - x1) * (x2 - x1) + (y2 - y1) * (y2 - y1)).
  set (d := R_sqrt.sqrt D). set (r := COIN_RADIUS w).
  intros [Hpos Hle].
  assert (Hr : 0 < r) by (destruct (COIN_RADIUS_cases w) as [E | E]; unfold r; rewrite E; lra).
  assert (HD : 0 <= D) by (apply Rplus_le_le_0_compat; apply Rle_0_sqr).
  assert (Hdd : d * d = D) by (apply sqrt_sqrt; exact HD).
  assert (HM : 0 <= r * 2 * (r * 2) - d / 2 * (d / 2)).
  { assert (0 <= (4 * r - d) * (4 * r + d)) by (apply Rmult_le_pos; lra).
    replace (r * 2 * (r * 2) - d / 2 * (d / 2))
      with ((4 * r - d) * (4 * r + d) / 4) by field.
    lra. }
  rewrite (proj2 (Rleb_true d (r * 4))) by lra.
  rewrite (proj2 (Rltb_true 0 d)) by lra.
  rewrite (Rmax_right 0 _ HM).
  set (off := R_sqrt.sqrt (r * 2 * (r * 2) - d / 2 * (d / 2))).
  assert (Hoff : off * off = 2 * r * (2 * r) - d / 2 * (d / 2)).
  { unfold off. rewrite sqrt_sqrt by exact HM. ring. }
  assert (H2r : R_sqrt.sqrt (2 * r)² = 2 * r) by (apply sqrt_Rsqr; lra).
  assert (Hd : d <> 0) by lra.
  destruct (tangent_algebra x1 y1 x2 y2 d off r 1 Hd Hdd Hoff (or_introl eq_refl))
    as [A1 A2].
  destruct (tangent_algebra x1 y1 x2 y2 d off r (-1) Hd Hdd Hoff (or_intror eq_refl))
    as [B1 B2].
  split; [reflexivity|].
  repeat constructor; cbn [Position.x Position.y]; rewrite <- H2r; f_equal.
  - rewrite <- A1. unfold Rsqr. field. exact Hd.
  - rewrite <- A2. unfold Rsqr. field. exact Hd.
  - rewrite <- B1. unfold Rsqr. field. exact Hd.
  - rewrite <- B2. unfold Rsqr. field. exact Hd.
Qed.


Lemma Reqb_false (a b : R) : a <> b -> Reqb a b = false.
Proof. intro H. unfold Reqb. destruct (Req_dec_T a b); [contradiction | reflexivity]. Qed.

(** No pair of coins makes the program divide by zero: the checked reading
    never fails and computes the positions of the unchecked one. *)
Lemma candidatePositionsChecked_total (w : Window R) (coin1 coin2 : Coin R) :
  candidatePositionsChecked w coin1 coin2 = Some (candidatePositions w coin1 coin2).
Proof.
  destruct coin1 as [i1 x1 y1 f1], coin2 as [i2 x2 y2 f2].
  unfold candidatePositionsChecked, candidatePositions, checkedDiv; cbn.
  rewrite (Reqb_false 2 0) by lra.
  destruct (Rleb _ _); [|reflexivity].
  destruct (Rltb 0 _) eqn:E; [|reflexivity].
  apply Rltb_true in E. rewrite Reqb_false by lra. reflexivity.
Qed.

(** C8: two coins at Euclidean distance 0 contribute no candidate and no
    zone, and the computation for them divides by nothing that is zero:
    the checked reading returns the empty list, not a failure. *)
Theorem coincident_pair_skipped
  (w : Window R) (otherCoins : list (Coin R)) (coin1 coin2 : Coin R) :
  Euclid (at_ coin1) (at_ coin2) = 0 ->
  candidatePositionsChecked w coin1 coin2 = Some [] /\
  candidatePositions w coin1 coin2 = [] /\
  pairZones w otherCoins coin1 coin2 = [].
Proof.
  intro H.
  assert (E : candidatePositions w coin1 coin2 = []).
  { destruct coin1 as [i1 x1 y1 f1], coin2 as [i2 x2 y2 f2].
    unfold Euclid in H; cbn in H. rewrite <- dist_swap in H.
    unfold candidatePositions; cbn. rewrite H.
    rewrite (proj2 (Rltb_false 0 0)) by lra.
    now destruct (Rleb _ _). }
  rewrite candidatePositionsChecked_total. unfold pairZones. rewrite E.
  repeat split; reflexivity.
Qed.

End Exact.

(** * Moving coin 0 from the initial layout *)

Section Scenario.

Context {T : Type} {NumT : Number T}.
Variable window : Window T.

Lemma moveCoin_0_initial (saved : option nat) (zone : Position T) :
  moveCoin window 0 zone (initialState window saved)
  = mkState (coin0At window zone) 1 saved false None [].
Proof. reflexivity. Qed.

Lemma moveCoin_0_again (saved : option nat) (n : nat) (zone zone' : Position T) :
  moveCoin window 0 zone' (mkState (coin0At window zone) n saved false None [])
  = mkState (coin0At window zone') (n + 1) saved false None [].
Proof. reflexivity. Qed.

End Scenario.

Lemma desktop_not_completed (zone : Position float) :
  isCompleted desktop (coin0At desktop zone) = Some false.
Proof.
  destruct zone as [zx zy]. vm_compute.
  now destruct (PrimFloat.ltb _ _).
Qed.

Lemma sqrt_ge_20 (e : R) : (400 <= e)%R -> (20 <= R_sqrt.sqrt e)%R.
Proof.
  intro H. rewrite <- (sqrt_square 20) at 1 by lra.
  apply sqrt_le_1_alt. lra.
Qed.

Lemma exact_not_completed (w : Window R) (zone : Position R) :
  isCompleted w (coin0At w zone) = Some false.
Proof.
  destruct zone as [zx zy].
  unfold isCompleted, every, coin0At, initialCoins, mapi, INITIAL_POSITIONS,
    nearTarget, TARGET_POSITIONS, pow2; cbn.
  generalize (Rmin 600 (innerWidth w - 32) / 2)%R.
  generalize (Rmin 400 (innerHeight w * (1 / 2)) / 2)%R.
  intros cy cx.
  destruct (Rltb _ 20); [|reflexivity].
  rewrite (proj2 (Rltb_false _ 20)); [reflexivity|].
  apply sqrt_ge_20. ring_simplify. lra.
Qed.

(** In the initial layout every coin is 60 units or more from the target
    slot of its own identity, so the check cannot pass before each of the
    six coins has been moved. *)
Lemma initial_coin_far (w : Window R) (i : nat) (p t : Position R) :
  nth_error (INITIAL_POSITIONS w) i = Some p ->
  nth_error (TARGET_POSITIONS w) i = Some t ->
  (60 <= Euclid p t)%R.
Proof.
  unfold INITIAL_POSITIONS, TARGET_POSITIONS, Euclid.
  generalize (centerX w), (centerY w). intros cx cy Hp Ht.
  assert (H60 : forall e, (3600 <= e)%R -> (60 <= R_sqrt.sqrt e)%R).
  { intros e He. rewrite <- (sqrt_square 60) at 1 by lra.
    apply sqrt_le_1_alt. lra. }
  do 6 (destruct i as [|i];
        [ injection Hp as <-; injection Ht as <-; cbn;
          apply H60; unfold Rsqr; ring_simplify; lra | ]).
  destruct i; discriminate Hp.
Qed.

(** C4 as stated fails: no three moves of coin 0 on offered
    zones end in a completed layout, whatever the window (exact
    arithmetic), and none does on the desktop board in doubles. *)
Lemma three_moves_of_coin_0_do_not_complete :
  (~ exists (w : Window R) (saved : option nat) (z1 z2 z3 : Position R),
       let s0 := initialState w saved in
       let s1 := moveCoin w 0 z1 s0 in
       let s2 := moveCoin w 0 z2 s1 in
       let s3 := moveCoin w 0 z3 s2 in
       In z1 (offered w 0 s0) /\ In z2 (offered w 0 s1) /\ In z3 (offered w 0 s2) /\
       isCompleted w (coins s1) = Some false /\
       isCompleted w (coins s2) = Some false /\
       isCompleted w (coins s3) = Some true)
  /\
  (~ exists (saved : option nat) (z1 z2 z3 : Position float),
       let s0 := initialState desktop saved in
       let s1 := moveCoin desktop 0 z1 s0 in
       let s2 := moveCoin desktop 0 z2 s1 in
       let s3 := moveCoin desktop 0 z3 s2 in
       In z1 (offered desktop 0 s0) /\ In z2 (offered desktop 0 s1) /\
       In z3 (offered desktop 0 s2) /\
       isCompleted desktop (coins s1) = Some false /\
       isCompleted desktop (coins s2) = Some false /\
       isCompleted desktop (coins s3) = Some true).
Proof.
  split.
  - intros (w & saved & z1 & z2 & z3 & H). cbv zeta in H.
    destruct H as (_ & _ & _ & _ & _ & H).
    rewrite moveCoin_0_initial, !moveCoin_0_again in H. cbn [coins] in H.
    rewrite exact_not_completed in H. discriminate H.
  - intros (saved & z1 & z2 & z3 & H). cbv zeta in H.
    destruct H as (_ & _ & _ & _ & _ & H).
    rewrite moveCoin_0_initial, !moveCoin_0_again in H. cbn [coins] in H.
    rewrite desktop_not_completed in H. discriminate H.
Qed.

(** C4, amended: on the desktop board coin 0 can be moved three times in a
    row onto offered zones, and after the first, the second and the third
    of any three moves of coin 0 the completion check answers false, on the
    desktop board in doubles and on every board in exact arithmetic. *)
Theorem three_moves_of_coin_0_stay_incomplete :
  (exists z1 z2 z3 : Position float,
     let s0 := initialState desktop None in
     let s1 := moveCoin desktop 0 z1 s0 in
     let s2 := moveCoin desktop 0 z2 s1 in
     In z1 (offered desktop 0 s0) /\ In z2 (offered desktop 0 s1) /\
     In z3 (offered desktop 0 s2))
  /\
  (forall (saved : option nat) (z1 z2 z3 : Position float),
     let s0 := initialState desktop saved in
     let s1 := moveCoin desktop 0 z1 s0 in
     let s2 := moveCoin desktop 0 z2 s1 in
     let s3 := moveCoin desktop 0 z3 s2 in
     isCompleted desktop (coins s1) = Some false /\
     isCompleted desktop (coins s2) = Some false /\
     isCompleted desktop (coins s3) = Some false)
  /\
  (forall (w : Window R) (saved : option nat) (z1 z2 z3 : Position R),
     let s0 := initialState w saved in
     let s1 := moveCoin w 0 z1 s0 in
     let s2 := moveCoin w 0 z2 s1 in
     let s3 := moveCoin w 0 z3 s2 in
     isCompleted w (coins s1) = Some false /\
     isCompleted w (coins s2) = Some false /\
     isCompleted w (coins s3) = Some false).
Proof.
  split; [|split].
  - set (s0 := initialState desktop None).
    set (z1 := nthZone 1 s0). set (s1 := moveCoin desktop 0 z1 s0).
    set (z2 := nthZone 3 s1). set (s2 := moveCoin desktop 0 z2 s1).
    exists z1, z2, (nthZone 4 s2).
    cbv zeta. repeat split; vm_compute; tauto.
  - intros saved z1 z2 z3. cbv zeta.
    rewrite moveCoin_0_initial, !moveCoin_0_again. cbn [coins].
    rewrite !desktop_not_completed. repeat split.
  - intros w saved z1 z2 z3. cbv zeta.
    rewrite moveCoin_0_initial, !moveCoin_0_again. cbn [coins].
    rewrite !exact_not_completed. repeat split.
Qed.

(** * How many moves the check needs *)

Section Runs.

Context {T : Type} {NumT : Number T}.
Variable window : Window T.

Lemma restInPlace_ids (moved : list nat) (coins : list (Coin T)) :
  restInPlace window moved coins -> map (@Coin.id T) coins = seq 0 6.
Proof.
  intro H. rewrite <- (initialCoins_ids window).
  unfold restInPlace in H.
  induction H as [|coin init l l' [Hid _] _ IH]; simpl; [reflexivity|].
  now rewrite Hid, IH.
Qed.

Lemma restInPlace_initial : restInPlace window [] (initialCoins window).
Proof.
  unfold restInPlace.
  induction (initialCoins window) as [|c l IH]; constructor; auto.
Qed.

Lemma restInPlace_flags (moved : list nat) (coins : list (Coin T)) (f : Coin T -> bool) :
  restInPlace window moved coins ->
  restInPlace window moved
    (map (fun coin => Coin.mk (Coin.id coin) (Coin.x coin) (Coin.y coin) (f coin)) coins).
Proof.
  unfold restInPlace. intro H.
  induction H as [|coin init l l' Hc _ IH]; simpl; constructor; assumption.
Qed.

Lemma restInPlace_move (moved : list nat) (coins : list (Coin T))
      (selected : nat) (zone : Position T) :
  restInPlace window moved coins ->
  restInPlace window (selected :: moved)
    (map (fun coin =>
            if Coin.id coin =? selected
            then Coin.mk (Coin.id coin) (Position.x zone) (Position.y zone) false
            else Coin.mk (Coin.id coin) (Coin.x coin) (Coin.y coin) false)
         coins).
Proof.
  unfold restInPlace. intro H.
  induction H as [|coin init l l' [Hid Hc] _ IH]; simpl; constructor; try assumption.
  destruct (Coin.id coin =? selected) eqn:E; simpl; split; try assumption.
  - apply Nat.eqb_eq in E. left. now left.
  - destruct Hc as [Hc | Hc]; [left; now right | right; exact Hc].
Qed.

Lemma restInPlace_weaken (moved moved' : list nat) (coins : list (Coin T)) :
  incl moved moved' ->
  restInPlace window moved coins -> restInPlace window moved' coins.
Proof.
  unfold restInPlace. intros Hincl H.
  induction H as [|coin init l l' [Hid Hc] _ IH]; constructor; try assumption.
  split; [assumption|]. destruct Hc as [Hc | Hc]; [left; now apply Hincl | now right].
Qed.

Lemma step_movedWithinCount (e : Event) (s : State T) :
  movedWithinCount window s -> movedWithinCount window (step window e s).
Proof.
  intros (moved & Hnd & Hlen & Hrest). unfold movedWithinCount.
  destruct e as [coinId | zone |]; cbn [step].
  - exists moved. unfold handleCoinClick.
    destruct (match selectedCoin s with Some sel => sel =? coinId | None => false end);
      cbn [coins moves]; repeat split; try assumption;
      now apply (restInPlace_flags moved (coins s)).
  - unfold handleZoneClick. destruct (selectedCoin s) as [selected|].
    + cbn [coins moves]. destruct (in_dec Nat.eq_dec selected moved) as [Hin | Hout].
      * exists moved. repeat split; [assumption | lia |].
        apply (restInPlace_weaken (selected :: moved) moved).
        -- intros i [<- | Hi]; assumption.
        -- now apply restInPlace_move.
      * exists (selected :: moved). repeat split.
        -- now constructor.
        -- simpl. lia.
        -- now apply restInPlace_move.
    + exists moved. repeat split; assumption.
  - exists []. cbn [resetGame coins moves]. repeat split.
    + constructor.
    + simpl. lia.
    + apply restInPlace_initial.
Qed.

Lemma run_movedWithinCount (events : list Event) (s : State T) :
  movedWithinCount window s -> movedWithinCount window (run window events s).
Proof.
  revert s. induction events as [|e events IH]; intros s H; simpl; [exact H|].
  apply IH. now apply step_movedWithinCount.
Qed.

Lemma initialState_movedWithinCount (saved : option nat) :
  movedWithinCount window (initialState window saved).
Proof.
  exists []. repeat split; [constructor | simpl; lia | apply restInPlace_initial].
Qed.

(** Every state the player can reach has six coins with the identities 0
    to 5. *)
Lemma run_identities (events : list Event) (saved : option nat) :
  map (@Coin.id T) (coins (run window events (initialState window saved))) = seq 0 6.
Proof.
  destruct (run_movedWithinCount events _ (initialState_movedWithinCount saved))
    as (moved & _ & _ & H).
  exact (restInPlace_ids moved _ H).
Qed.

End Runs.

Lemma initialCoins_In (w : Window R) (init : Coin R) :
  In init (initialCoins w) ->
  nth_error (INITIAL_POSITIONS w) (Coin.id init) = Some (at_ init).
Proof.
  unfold initialCoins, mapi, INITIAL_POSITIONS. cbn [mapi_from In].
  intros H. repeat (destruct H as [<- | H]; [reflexivity|]). destruct H.
Qed.

Lemma complete_layout_needs_six (w : Window R) (s : State R) :
  movedWithinCount w s -> isCompleted w (coins s) = Some true -> 6 <= moves s.
Proof.
  intros (moved & Hnd & Hlen & Hrest).
  pose proof (restInPlace_ids w moved _ Hrest) as Hids.
  rewrite (isCompleted_six w (coins s) Hids), Some_eq_iff, forallb_forall.
  intro Hall.
  assert (Hincl : incl (seq 0 6) moved).
  { intros i Hi. pose proof (Hall i Hi) as Hnear. apply in_seq in Hi.
    destruct (nearSlot_Euclid w (coins s) i Hids ltac:(lia))
      as (coin & target & Hc & Ht & Hn).
    rewrite Hn in Hnear. apply Rltb_true in Hnear.
    apply find_some in Hc as [Hin Hid]. apply Nat.eqb_eq in Hid.
    destruct (Forall2_In_left _ _ _ coin Hrest Hin) as (init & Hinit & Hsame & Hc).
    destruct Hc as [Hc | Hc]; [now rewrite <- Hid|].
    exfalso. apply initialCoins_In in Hinit.
    rewrite <- Hsame, Hid in Hinit.
    pose proof (initial_coin_far w i _ _ Hinit Ht) as Hfar.
    rewrite <- Hc in Hfar. lra. }
  pose proof (NoDup_incl_length (seq_NoDup 6 0) Hincl) as H6.
  rewrite length_seq in H6. lia.
Qed.

(** X18: the completion check cannot pass before six moves have been
    made, whatever the player does and whatever the window: each of the
    six coins has to leave its initial position. *)
Lemma completed_needs_six_moves
  (w : Window R) (events : list Event) (saved : option nat) :
  isCompleted w (coins (run w events (initialState w saved))) = Some true ->
  6 <= moves (run w events (initialState w saved)).
Proof.
  apply complete_layout_needs_six.
  apply run_movedWithinCount, initialState_movedWithinCount.
Qed.

(** * The application: what every reachable state satisfies *)

Section ApplicationFacts.

Context {T : Type} {NumT : Number T}.
Variable window : Window T.

Lemma isCompleted_placement (l l' : list (Coin T)) :
  map placement l = map placement l' ->
  isCompleted window l = isCompleted window l'.
Proof.
  unfold isCompleted, every. generalize 0.
  revert l'. induction l as [|c l IH]; intros [|c' l'] n H;
    try discriminate H; [reflexivity|].
  apply map_cons_eq in H as [Hc Hl]. simpl.
  assert (E : nearTarget window c n = nearTarget window c' n).
  { destruct c, c'. unfold placement in Hc; simpl in Hc.
    injection Hc as _ -> ->. reflexivity. }
  rewrite E, (IH l' (S n) Hl). reflexivity.
Qed.

Lemma flags_placement (f : Coin T -> bool) (l : list (Coin T)) :
  map placement
      (map (fun coin => Coin.mk (Coin.id coin) (Coin.x coin) (Coin.y coin) (f coin)) l)
  = map placement l.
Proof. rewrite map_map. apply map_ext. intro c. reflexivity. Qed.

Lemma handleCoinClick_placement (coinId : nat) (s : State T) :
  map placement (coins (handleCoinClick window coinId s)) = map placement (coins s).
Proof.
  unfold handleCoinClick.
  destruct (match selectedCoin s with Some sel => sel =? coinId | None => false end);
    cbn [coins]; apply flags_placement.
Qed.

Lemma step_ids (e : Event) (s : State T) :
  map (@Coin.id T) (coins s) = seq 0 6 ->
  map (@Coin.id T) (coins (step window e s)) = seq 0 6.
Proof.
  intro H. destruct e as [coinId|zone|]; cbn [step].
  - now rewrite handleCoinClick_ids.
  - now rewrite handleZoneClick_ids.
  - exact (initialCoins_ids window).
Qed.

Lemma completionEffect_total (s : State T) :
  map (@Coin.id T) (coins s) = seq 0 6 ->
  exists s', completionEffect window s = Some s'.
Proof.
  intro H. unfold completionEffect. rewrite (isCompleted_six window _ H).
  destruct (_ && _); eexists; reflexivity.
Qed.

Lemma Reachable_ids (saved : option nat) (s : State T) :
  Reachable window saved s -> map (@Coin.id T) (coins s) = seq 0 6.
Proof.
  induction 1 as [s H | s s' e _ IH _ H].
  - apply completionEffect_frame in H as (-> & _). exact (initialCoins_ids window).
  - apply completionEffect_frame in H as (-> & _). now apply step_ids.
Qed.

(** X1: the completion check never throws in a game: a first state
    exists, and from every reachable state every event, enabled or not,
    leads to a next state. *)
Theorem application_never_throws (saved : option nat) :
  (exists s, completionEffect window (initialState window saved) = Some s) /\
  (forall s e, Reachable window saved s -> exists s', turn window e s = Some s').
Proof.
  split.
  - apply completionEffect_total. exact (initialCoins_ids window).
  - intros s e H. apply completionEffect_total, step_ids.
    exact (Reachable_ids saved s H).
Qed.

Lemma completionEffect_settles (s s' : State T) :
  completionEffect window s = Some s' ->
  completionEffect window s' = Some s'.
Proof.
  unfold completionEffect.
  destruct (isCompleted window (coins s)) as [b|] eqn:E; [|discriminate].
  destruct (b && negb (isComplete s)) eqn:Eb; intro H; injection H as <-.
  - cbn [coins isComplete]. rewrite E.
    now rewrite andb_false_r.
  - now rewrite E, Eb.
Qed.

Lemma settled_transfer (s t : State T) :
  completionEffect window s = Some s ->
  isCompleted window (coins t) = isCompleted window (coins s) ->
  isComplete t = isComplete s ->
  completionEffect window t = Some t.
Proof.
  unfold completionEffect. intros H -> ->.
  destruct (isCompleted window (coins s)) as [b|]; [|discriminate].
  destruct (b && negb (isComplete s)) eqn:Eb; [|reflexivity].
  exfalso. injection H as H. apply (f_equal (@isComplete T)) in H. simpl in H.
  rewrite <- H in Eb. simpl in Eb. rewrite andb_false_r in Eb. discriminate.
Qed.

Lemma Reachable_settled (saved : option nat) (s : State T) :
  Reachable window saved s -> completionEffect window s = Some s.
Proof.
  destruct 1 as [s H | s s' e _ _ H];
    exact (completionEffect_settles _ _ H).
Qed.

(** X2: running the completion effect on its own result changes nothing,
    so the render it causes does not fire it again; every reachable state
    is such a result. *)
Theorem completionEffect_idempotent (saved : option nat) (s s' : State T) :
  (completionEffect window s = Some s' -> completionEffect window s' = Some s') /\
  (Reachable window saved s -> completionEffect window s = Some s).
Proof.
  split.
  - apply completionEffect_settles.
  - apply Reachable_settled.
Qed.

Lemma step_selectionConsistent (e : Event) (s : State T) :
  selectionConsistent window s -> selectionConsistent window (step window e s).
Proof.
  intro H. destruct e as [coinId|zone|]; cbn [step].
  - unfold handleCoinClick, selectionConsistent.
    destruct (match selectedCoin s with Some sel => sel =? coinId | None => false end);
      cbn [selectedCoin validDropZones coins]; split; try reflexivity.
    + apply Forall_map, Forall_forall. reflexivity.
    + apply findValidDropZones_placement. symmetry. apply flags_placement.
    + apply Forall_map, Forall_forall. reflexivity.
  - unfold handleZoneClick. destruct (selectedCoin s) as [selected|] eqn:E.
    + unfold selectionConsistent. cbn [selectedCoin validDropZones coins].
      split; [reflexivity|]. apply Forall_map, Forall_forall.
      intros c _. now destruct (Coin.id c =? selected).
    + exact H.
  - unfold selectionConsistent, resetGame. cbn [selectedCoin validDropZones coins].
    split; [reflexivity|].
    unfold initialCoins, mapi, INITIAL_POSITIONS. cbn [mapi_from].
    repeat constructor.
Qed.

Lemma completionEffect_selectionConsistent (s s' : State T) :
  completionEffect window s = Some s' ->
  selectionConsistent window s -> selectionConsistent window s'.
Proof.
  intros H. apply completionEffect_frame in H as (Hc & _ & Hs & Hz).
  unfold selectionConsistent. now rewrite Hc, Hs, Hz.
Qed.

Lemma Reachable_consistent (saved : option nat) (s : State T) :
  Reachable window saved s -> selectionConsistent window s.
Proof.
  induction 1 as [s H | s s' e _ IH _ H].
  - apply (completionEffect_selectionConsistent _ _ H).
    unfold selectionConsistent, initialState. cbn [selectedCoin validDropZones coins].
    split; [reflexivity|].
    unfold initialCoins, mapi, INITIAL_POSITIONS. cbn [mapi_from].
    repeat constructor.
  - apply (completionEffect_selectionConsistent _ _ H).
    now apply step_selectionConsistent.
Qed.

(** X3: in every reachable state the displayed zones are the valid zones
    of the selected coin in the current layout, and none when nothing is
    selected; a coin carries the selection flag exactly when it is the
    selected one. *)
Theorem Reachable_selectionConsistent (saved : option nat) (s : State T) :
  Reachable window saved s ->
  (selectedCoin s = None ->
   validDropZones s = [] /\
   forall c, In c (coins s) -> Coin.isSelected c = false) /\
  (forall coinId, selectedCoin s = Some coinId ->
   validDropZones s = findValidDropZones window (coins s) coinId /\
   forall c, In c (coins s) -> Coin.isSelected c = (Coin.id c =? coinId)).
Proof.
  intro H. apply Reachable_consistent in H. unfold selectionConsistent in H.
  split.
  - intro E. rewrite E in H. destruct H as [Hz Hf].
    split; [exact Hz|]. now apply Forall_forall.
  - intros coinId E. rewrite E in H. destruct H as [Hz Hf].
    split; [exact Hz|]. now apply Forall_forall.
Qed.

Lemma unflag_all (l : list (Coin T)) :
  Forall (fun c => Coin.isSelected c = false) l ->
  map (fun coin => Coin.mk (Coin.id coin) (Coin.x coin) (Coin.y coin) false) l = l.
Proof.
  induction 1 as [|c l Hc _ IH]; simpl; [reflexivity|].
  rewrite IH. destruct c; simpl in *. now rewrite Hc.
Qed.

(** X4: tapping a coin and tapping it again is a round trip: from a
    reachable state with nothing selected the two turns lead back to the
    very same state. *)
Theorem select_then_deselect (saved : option nat) (s : State T) (coinId : nat) :
  Reachable window saved s -> selectedCoin s = None ->
  exists s1, turn window (CoinClick coinId) s = Some s1 /\
             selectedCoin s1 = Some coinId /\
             turn window (CoinClick coinId) s1 = Some s.
Proof.
  intros Hr Hsel.
  pose proof (Reachable_consistent saved s Hr) as Hc.
  pose proof (Reachable_settled saved s Hr) as Hset.
  unfold selectionConsistent in Hc. rewrite Hsel in Hc. destruct Hc as [Hz Hf].
  exists (handleCoinClick window coinId s).
  assert (E1 : turn window (CoinClick coinId) s = Some (handleCoinClick window coinId s)).
  { unfold turn, step. apply (settled_transfer s); [exact Hset| |].
    - apply isCompleted_placement, handleCoinClick_placement.
    - unfold handleCoinClick. now rewrite Hsel. }
  split; [exact E1|].
  split; [unfold handleCoinClick; now rewrite Hsel|].
  assert (E2 : handleCoinClick window coinId (handleCoinClick window coinId s) = s).
  { unfold handleCoinClick at 1.
    assert (Hs1 : selectedCoin (handleCoinClick window coinId s) = Some coinId)
      by (unfold handleCoinClick; now rewrite Hsel).
    rewrite Hs1, Nat.eqb_refl.
    unfold handleCoinClick. rewrite Hsel. cbn [coins moves bestScore isComplete].
    rewrite map_map. cbn [Coin.id Coin.x Coin.y].
    rewrite (unflag_all _ Hf). destruct s; simpl in *. now subst. }
  unfold turn, step. rewrite E2. exact Hset.
Qed.

Lemma moved_layout (l : list (Coin T)) (selected : nat) (zone : Position T) :
  Forall2 (fun coin coin' =>
             Coin.id coin' = Coin.id coin /\
             at_ coin' = if Coin.id coin =? selected then zone else at_ coin)
          l
          (map (fun coin =>
                  if Coin.id coin =? selected
                  then Coin.mk (Coin.id coin) (Position.x zone) (Position.y zone) false
                  else Coin.mk (Coin.id coin) (Coin.x coin) (Coin.y coin) false)
               l).
Proof.
  induction l as [|coin l IH]; simpl; constructor; [|exact IH].
  destruct (Coin.id coin =? selected); simpl; split; try reflexivity.
  now destruct zone.
Qed.

(** X17: a tap on a displayed zone always moves a coin: in a reachable
    state a zone is only displayed while a coin is selected, the tap
    counts one move, puts that coin on the zone, leaves the other coins
    where they are and clears the selection and the zones. *)
Theorem zone_tap_moves_selected
  (saved : option nat) (s s' : State T) (zone : Position T) :
  Reachable window saved s -> enabled s (ZoneClick zone) ->
  turn window (ZoneClick zone) s = Some s' ->
  exists selected,
    selectedCoin s = Some selected /\
    In zone (findValidDropZones window (coins s) selected) /\
    moves s' = moves s + 1 /\
    selectedCoin s' = None /\ validDropZones s' = [] /\
    Forall2 (fun coin coin' =>
               Coin.id coin' = Coin.id coin /\
               at_ coin' = if Coin.id coin =? selected then zone else at_ coin)
            (coins s) (coins s').
Proof.
  intros Hr Hen H.
  pose proof (Reachable_consistent saved s Hr) as Hc.
  unfold selectionConsistent in Hc. cbn [enabled] in Hen.
  destruct (selectedCoin s) as [selected|] eqn:Hsel.
  - destruct Hc as [Hz _]. rewrite Hz in Hen.
    exists selected. split; [reflexivity|]. split; [exact Hen|].
    unfold turn in H. apply completionEffect_frame in H as (Ec & Em & Es & Ev).
    rewrite Ec, Em, Es, Ev. cbn [step]. unfold handleZoneClick. rewrite Hsel.
    cbn [coins moves selectedCoin validDropZones].
    repeat split. apply moved_layout.
  - destruct Hc as [Hz _]. rewrite Hz in Hen. destruct Hen.
Qed.

(** X5: the completion flag latches: once it is set, coin taps and zone
    taps leave it set and leave the best score alone, whatever the layout
    becomes, while a zone tap with a coin selected still counts a move. *)
Theorem completion_latches (e : Event) (s s' : State T) :
  isComplete s = true -> e <> Reset -> turn window e s = Some s' ->
  isComplete s' = true /\ bestScore s' = bestScore s /\
  (forall zone selected,
     e = ZoneClick zone -> selectedCoin s = Some selected ->
     moves s' = moves s + 1).
Proof.
  intros Hc He H. unfold turn, completionEffect in H.
  assert (Hstep : isComplete (step window e s) = true /\
                  bestScore (step window e s) = bestScore s).
  { destruct e as [coinId|zone|]; cbn [step]; [| |contradiction].
    - unfold handleCoinClick.
      destruct (match selectedCoin s with Some sel => sel =? coinId | None => false end);
        cbn [isComplete bestScore]; auto.
    - unfold handleZoneClick. destruct (selectedCoin s); cbn [isComplete bestScore]; auto. }
  destruct Hstep as [Hc' Hb'].
  destruct (isCompleted window (coins (step window e s))) as [b|]; [|discriminate].
  rewrite Hc', andb_false_r in H. injection H as <-.
  repeat split; try assumption.
  intros zone selected -> Hsel. cbn [step]. unfold handleZoneClick. now rewrite Hsel.
Qed.

Lemma sameButCoin_find (coinId : nat) (l l' : list (Coin T)) :
  sameButCoin coinId l l' ->
  (find (fun c => Coin.id c =? coinId) l = None
   <-> find (fun c => Coin.id c =? coinId) l' = None).
Proof.
  induction 1 as [|c c' l l' [Hid _] _ IH]; simpl; [tauto|].
  rewrite <- Hid. destruct (Coin.id c =? coinId); [split; discriminate | exact IH].
Qed.

Lemma sameButCoin_others (coinId : nat) (l l' : list (Coin T)) :
  sameButCoin coinId l l' ->
  map placement (filter (fun c => negb (Coin.id c =? coinId)) l)
  = map placement (filter (fun c => negb (Coin.id c =? coinId)) l').
Proof.
  induction 1 as [|c c' l l' [Hid Hc] _ IH]; simpl; [reflexivity|].
  rewrite <- Hid. destruct (Coin.id c =? coinId) eqn:E; simpl; [exact IH|].
  destruct Hc as [Hc | Hc]; [apply Nat.eqb_neq in E; contradiction|].
  rewrite IH. f_equal. destruct c, c'; unfold placement, at_ in *; simpl in *.
  injection Hc as -> ->. now subst.
Qed.

(** X6: the zones offered for a coin do not depend on where that coin
    is: two layouts that differ at most in the position of the selected
    coin give the same zones. *)
Theorem findValidDropZones_ignores_selected
  (coinId : nat) (l l' : list (Coin T)) :
  sameButCoin coinId l l' ->
  findValidDropZones window l coinId = findValidDropZones window l' coinId.
Proof.
  intro H. unfold findValidDropZones.
  pose proof (sameButCoin_find coinId l l' H) as Hfind.
  pose proof (sameButCoin_others coinId l l' H) as Hothers.
  destruct (find (fun c => Coin.id c =? coinId) l) as [c|];
    destruct (find (fun c => Coin.id c =? coinId) l') as [c'|]; try reflexivity.
  - now apply pairLoop_placement.
  - destruct Hfind as [_ Hfind]. discriminate (Hfind eq_refl).
  - destruct Hfind as [Hfind _]. discriminate (Hfind eq_refl).
Qed.

Lemma candidatePositions_length (coin1 coin2 : Coin T) :
  length (candidatePositions window coin1 coin2) <= 2.
Proof.
  unfold candidatePositions.
  destruct (_ .<= _); [|simpl; lia]. destruct (_ .> _); simpl; lia.
Qed.

Lemma pairZones_length (others : list (Coin T)) (coin1 coin2 : Coin T) :
  length (pairZones window others coin1 coin2) <= 2.
Proof.
  unfold pairZones. etransitivity; [apply filter_length_le|].
  apply candidatePositions_length.
Qed.

Lemma flat_map_pairZones_length (others rest : list (Coin T)) (coin1 : Coin T) :
  length (flat_map (pairZones window others coin1) rest) <= 2 * length rest.
Proof.
  induction rest as [|c rest IH]; simpl; [lia|].
  rewrite length_app. pose proof (pairZones_length others coin1 c). lia.
Qed.

Lemma pairLoop_length (others rest : list (Coin T)) :
  length (pairLoop window others rest) <= length rest * (length rest - 1).
Proof.
  induction rest as [|c rest IH]; simpl; [lia|].
  rewrite length_app, Nat.sub_0_r.
  pose proof (flat_map_pairZones_length others rest c). nia.
Qed.

(** X7: a layout of [n] coins gives at most [(n-1)(n-2)] zones, two for
    each pair of other coins; the six coins of the game give at most 20. *)
Theorem findValidDropZones_length (coins : list (Coin T)) (coinId : nat) :
  length (findValidDropZones window coins coinId)
  <= (length coins - 1) * (length coins - 2).
Proof.
  unfold findValidDropZones.
  destruct (find (fun c => Coin.id c =? coinId) coins) as [c|] eqn:E;
    [|apply Nat.le_0_l].
  set (others := filter (fun c => negb (Coin.id c =? coinId)) coins).
  assert (Hlen : length others <= length coins - 1).
  { apply find_some in E as [Hin Hid].
    assert (length others < length coins); [|lia].
    unfold others. clear - Hin Hid.
    induction coins as [|a l IH]; [destruct Hin|]. simpl.
    destruct Hin as [-> | Hin].
    - rewrite Hid. simpl. pose proof (filter_length_le (fun c => negb (Coin.id c =? coinId)) l). lia.
    - specialize (IH Hin). destruct (negb (Coin.id a =? coinId)); simpl; lia. }
  etransitivity; [apply pairLoop_length|].
  apply Nat.mul_le_mono; lia.
Qed.

End ApplicationFacts.

(** * Exact arithmetic: the geometry of the zones *)

Section ExactZones.

Local Open Scope R_scope.

Lemma Position_eq (x x' y y' : R) :
  x = x' -> y = y' -> Position.mk x y = Position.mk x' y'.
Proof. now intros -> ->. Qed.

Lemma Euclid_sym (p q : Position R) : Euclid p q = Euclid q p.
Proof. unfold Euclid. f_equal. unfold Rsqr. ring. Qed.

Lemma COIN_RADIUS_pos (w : Window R) : 0 < COIN_RADIUS w.
Proof. destruct (COIN_RADIUS_cases w) as [E | E]; rewrite E; lra. Qed.

(** The candidates of a pair, with the guards written on the distance of
    the two coins. *)
Lemma candidatePositions_exact (w : Window R) (c1 c2 : Coin R) :
  let d := Euclid (at_ c1) (at_ c2) in
  let r := COIN_RADIUS w in
  let off := R_sqrt.sqrt (Rmax 0 (r * 2 * (r * 2) - d / 2 * (d / 2))) in
  let mx := (Coin.x c1 + Coin.x c2) / 2 in
  let my := (Coin.y c1 + Coin.y c2) / 2 in
  let px := - (Coin.y c2 - Coin.y c1) / d in
  let py := (Coin.x c2 - Coin.x c1) / d in
  candidatePositions w c1 c2
  = if Rleb d (r * 4) then
      if Rltb 0 d then
        [ Position.mk (mx + px * off) (my + py * off);
          Position.mk (mx - px * off) (my - py * off) ]
      else []
    else [].
Proof.
  destruct c1 as [i1 x1 y1 f1], c2 as [i2 x2 y2 f2].
  unfold Euclid, candidatePositions, getDistance, pow2; cbn.
  rewrite <- (dist_swap x1 y1 x2 y2).
  replace ((x1 - x2) * (x1 - x2) + (y1 - y2) * (y1 - y2))
    with ((x2 - x1) * (x2 - x1) + (y2 - y1) * (y2 - y1)) by ring.
  reflexivity.
Qed.

Lemma Euclid_sqr (p q : Position R) :
  Euclid p q * Euclid p q
  = (Position.x q - Position.x p) * (Position.x q - Position.x p)
    + (Position.y q - Position.y p) * (Position.y q - Position.y p).
Proof.
  unfold Euclid. rewrite sqrt_sqrt.
  - unfold Rsqr. ring.
  - apply Rplus_le_le_0_compat; apply Rle_0_sqr.
Qed.

Lemma offset_sqr (r d : R) :
  0 < r -> 0 < d <= r * 4 ->
  Rmax 0 (r * 2 * (r * 2) - d / 2 * (d / 2)) = r * 2 * (r * 2) - d / 2 * (d / 2)
  /\ 0 <= r * 2 * (r * 2) - d / 2 * (d / 2).
Proof.
  intros Hr [Hd Hle].
  assert (HM : 0 <= r * 2 * (r * 2) - d / 2 * (d / 2)).
  { assert (0 <= (4 * r - d) * (4 * r + d)) by (apply Rmult_le_pos; lra).
    replace (r * 2 * (r * 2) - d / 2 * (d / 2))
      with ((4 * r - d) * (4 * r + d) / 4) by field.
    lra. }
  split; [apply Rmax_right|]; exact HM.
Qed.

(** Whatever the pair contributes is tangent to both coins, and the pair
    is then at positive distance of at most four radii. *)
Lemma candidate_exact (w : Window R) (c1 c2 : Coin R) (pos : Position R) :
  In pos (candidatePositions w c1 c2) ->
  0 < Euclid (at_ c1) (at_ c2) <= 4 * COIN_RADIUS w /\
  Euclid pos (at_ c1) = 2 * COIN_RADIUS w /\
  Euclid pos (at_ c2) = 2 * COIN_RADIUS w.
Proof.
  rewrite candidatePositions_exact. cbv zeta.
  pose proof (Euclid_sqr (at_ c1) (at_ c2)) as Hdd.
  set (d := Euclid (at_ c1) (at_ c2)) in *. set (r := COIN_RADIUS w).
  pose proof (COIN_RADIUS_pos w) as Hr. fold r in Hr.
  destruct (Rleb d (r * 4)) eqn:Hle; [|intros []].
  destruct (Rltb 0 d) eqn:Hpos; [|intros []].
  apply Rleb_true in Hle. apply Rltb_true in Hpos.
  destruct (offset_sqr r d Hr (conj Hpos Hle)) as [HM HM0]. rewrite HM.
  set (off := R_sqrt.sqrt (r * 2 * (r * 2) - d / 2 * (d / 2))).
  assert (Hoff : off * off = 2 * r * (2 * r) - d / 2 * (d / 2)).
  { unfold off. rewrite sqrt_sqrt by exact HM0. ring. }
  assert (H2r : R_sqrt.sqrt (2 * r)² = 2 * r) by (apply sqrt_Rsqr; lra).
  assert (Hd : d <> 0) by lra.
  destruct c1 as [i1 x1 y1 f1], c2 as [i2 x2 y2 f2]. cbn in Hdd |- *.
  destruct (tangent_algebra x1 y1 x2 y2 d off r 1 Hd Hdd Hoff (or_introl eq_refl))
    as [A1 A2].
  destruct (tangent_algebra x1 y1 x2 y2 d off r (-1) Hd Hdd Hoff (or_intror eq_refl))
    as [B1 B2].
  intros [<- | [<- | []]]; (split; [lra|]); unfold Euclid;
    cbn [at_ Coin.x Coin.y Position.x Position.y];
    rewrite <- H2r; split; f_equal.
  - rewrite <- A1. unfold Rsqr. field. exact Hd.
  - rewrite <- A2. unfold Rsqr. field. exact Hd.
  - rewrite <- B1. unfold Rsqr. field. exact Hd.
  - rewrite <- B2. unfold Rsqr. field. exact Hd.
Qed.

(** What the bounds and occupancy tests leave of a zone. *)
Lemma accepted_exact (w : Window R) (others : list (Coin R)) (zone : Position R) :
  accepted w others zone = true ->
  insideBoard w zone /\
  forall c, In c others -> 1.5 * COIN_RADIUS w <= Euclid (at_ c) zone.
Proof.
  unfold accepted, inBounds. intro Hacc.
  repeat (apply andb_true_iff in Hacc as [Hacc ?]).
  repeat match goal with
         | H : (_ .< _) = true |- _ => apply Rltb_true in H
         end.
  cbn [sub Number_R] in *.
  split; [unfold insideBoard; lra|].
  intros c Hc.
  match goal with H : negb _ = true |- _ => apply negb_true_iff in H; rename H into Hocc end.
  unfold occupied in Hocc.
  pose proof (existsb_false_forall _ _ Hocc c Hc) as Hfar.
  cbv beta in Hfar. rewrite getDistance_Euclid in Hfar.
  apply Rltb_false in Hfar. cbn [mul div num Number_R] in Hfar. lra.
Qed.

Lemma others_In (coins : list (Coin R)) (coinId : nat) (c : Coin R) :
  In c (filter (fun c => negb (Coin.id c =? coinId)%nat) coins)
  <-> In c coins /\ Coin.id c <> coinId.
Proof.
  rewrite filter_In, negb_true_iff, Nat.eqb_neq. tauto.
Qed.

(** Read in exact arithmetic, every zone is at exactly two radii from
    two coins of the layout other than the selected one, which are
    themselves at positive distance from each other. *)
Lemma zones_touch_two_coins (w : Window R) (coins : list (Coin R)) (coinId : nat) :
  Forall (fun zone =>
            exists c1 c2,
              In c1 coins /\ In c2 coins /\
              Coin.id c1 <> coinId /\ Coin.id c2 <> coinId /\
              0 < Euclid (at_ c1) (at_ c2) /\
              Euclid zone (at_ c1) = 2 * COIN_RADIUS w /\
              Euclid zone (at_ c2) = 2 * COIN_RADIUS w)
         (findValidDropZones w coins coinId).
Proof.
  apply Forall_forall. intros zone Hz.
  apply findValidDropZones_In in Hz as (c1 & c2 & H1 & H2 & Hc & _).
  apply others_In in H1 as [H1 N1]. apply others_In in H2 as [H2 N2].
  apply candidate_exact in Hc as ([Hpos _] & T1 & T2).
  exists c1, c2. repeat split; assumption.
Qed.

(** X9: the two coins of a pair can be taken in either order: the same
    two candidates come out, in the opposite order. *)
Theorem candidatePositions_swap (w : Window R) (c1 c2 : Coin R) :
  candidatePositions w c2 c1 = rev (candidatePositions w c1 c2).
Proof.
  rewrite !candidatePositions_exact. cbv zeta.
  rewrite (Euclid_sym (at_ c2) (at_ c1)).
  set (d := Euclid (at_ c1) (at_ c2)).
  destruct (Rleb d (COIN_RADIUS w * 4)); [|reflexivity].
  destruct (Rltb 0 d) eqn:Hpos; [|reflexivity].
  apply Rltb_true in Hpos.
  cbn [rev app].
  f_equal; [apply Position_eq | f_equal; apply Position_eq]; field; lra.
Qed.

(** X10: two coins at exactly four radii from each other give the same
    candidate twice, the point half way between them. *)
Theorem candidatePositions_at_four_radii (w : Window R) (c1 c2 : Coin R) :
  Euclid (at_ c1) (at_ c2) = 4 * COIN_RADIUS w ->
  let mid := Position.mk ((Coin.x c1 + Coin.x c2) / 2) ((Coin.y c1 + Coin.y c2) / 2) in
  candidatePositions w c1 c2 = [mid; mid].
Proof.
  intro H. cbv zeta. rewrite candidatePositions_exact. cbv zeta. rewrite H.
  pose proof (COIN_RADIUS_pos w) as Hr.
  rewrite (proj2 (Rleb_true _ _)) by lra.
  rewrite (proj2 (Rltb_true _ _)) by lra.
  replace (COIN_RADIUS w * 2 * (COIN_RADIUS w * 2)
           - 4 * COIN_RADIUS w / 2 * (4 * COIN_RADIUS w / 2)) with 0 by field.
  rewrite Rmax_left by lra. rewrite sqrt_0.
  f_equal; [apply Position_eq | f_equal; apply Position_eq]; ring.
Qed.

(** X11: a board that is not wider, or not taller, than two radii offers
    no zone at all, for any layout and any coin. *)
Theorem small_board_offers_nothing (w : Window R) (coins : list (Coin R)) (coinId : nat) :
  BOARD_WIDTH w <= 2 * COIN_RADIUS w \/ BOARD_HEIGHT w <= 2 * COIN_RADIUS w ->
  findValidDropZones w coins coinId = [].
Proof.
  intro Hsmall.
  destruct (findValidDropZones w coins coinId) as [|zone l] eqn:E; [reflexivity|].
  exfalso.
  assert (Hz : In zone (findValidDropZones w coins coinId)) by (rewrite E; now left).
  apply findValidDropZones_In in Hz as (c1 & c2 & _ & _ & _ & Hacc).
  apply accepted_exact in Hacc as [[Hx Hy] _]. lra.
Qed.

End ExactZones.

(** * Exact arithmetic: what a game keeps *)

Section ExactGame.

Local Open Scope R_scope.

Lemma initial_layout_not_completed (w : Window R) :
  isCompleted w (initialCoins w) = Some false.
Proof.
  exact (exact_not_completed w (Position.mk (centerX w) (centerY w - 60))).
Qed.

Lemma first_state_exact (w : Window R) (saved : option nat) :
  completionEffect w (initialState w saved) = Some (initialState w saved).
Proof.
  unfold completionEffect, initialState. cbn [coins].
  now rewrite initial_layout_not_completed.
Qed.

Lemma sqrt_ge_60 (e : R) : 3600 <= e -> 60 <= R_sqrt.sqrt e.
Proof.
  intro H. rewrite <- (sqrt_square 60) at 1 by lra.
  apply sqrt_le_1_alt. lra.
Qed.

Lemma initial_apart (w : Window R) : apart w (initialCoins w).
Proof.
  intros c c' Hc Hc' Hid.
  apply Rle_trans with 60.
  { destruct (COIN_RADIUS_cases w) as [E | E]; rewrite E; lra. }
  unfold initialCoins, mapi, INITIAL_POSITIONS in Hc, Hc'.
  cbn [mapi_from In] in Hc, Hc'.
  generalize dependent (centerY w). generalize dependent (centerX w).
  intros cx cy Hc Hc'.
  repeat (destruct Hc as [<- | Hc]; [|]); try (destruct Hc);
    repeat (destruct Hc' as [<- | Hc']; [|]); try (destruct Hc');
    try (exfalso; apply Hid; reflexivity);
    unfold Euclid; cbn; apply sqrt_ge_60; unfold Rsqr; ring_simplify; lra.
Qed.

Lemma apart_placement (w : Window R) (l l' : list (Coin R)) :
  map placement l = map placement l' -> apart w l -> apart w l'.
Proof.
  intros H Ha c c' Hc Hc' Hid.
  apply (in_map placement) in Hc, Hc'. rewrite <- H in Hc, Hc'.
  apply in_map_iff in Hc as (c0 & E0 & Hc0).
  apply in_map_iff in Hc' as (c0' & E0' & Hc0').
  apply placement_eq in E0 as [I0 P0]. apply placement_eq in E0' as [I0' P0'].
  rewrite <- P0, <- P0'. apply Ha; congruence.
Qed.

Lemma apart_move (w : Window R) (l : list (Coin R)) (selected : nat) (zone : Position R) :
  apart w l ->
  In zone (findValidDropZones w l selected) ->
  apart w (map (fun coin =>
                  if (Coin.id coin =? selected)%nat
                  then Coin.mk (Coin.id coin) (Position.x zone) (Position.y zone) false
                  else Coin.mk (Coin.id coin) (Coin.x coin) (Coin.y coin) false)
               l).
Proof.
  intros Ha Hz c c' Hc Hc' Hid.
  apply findValidDropZones_In in Hz as (_ & _ & _ & _ & _ & Hacc).
  apply accepted_exact in Hacc as [_ Hfar].
  apply in_map_iff in Hc as (c0 & <- & Hc0).
  apply in_map_iff in Hc' as (c0' & <- & Hc0').
  destruct (Coin.id c0 =? selected)%nat eqn:E0;
    destruct (Coin.id c0' =? selected)%nat eqn:E0'; cbn [Coin.id] in Hid.
  - apply Nat.eqb_eq in E0, E0'. congruence.
  - rewrite Euclid_sym.
    replace (at_ (Coin.mk (Coin.id c0) (Position.x zone) (Position.y zone) false))
      with zone by now destruct zone.
    apply (Hfar c0'). apply others_In. split; [exact Hc0'|]. now apply Nat.eqb_neq.
  - replace (at_ (Coin.mk (Coin.id c0') (Position.x zone) (Position.y zone) false))
      with zone by now destruct zone.
    apply (Hfar c0). apply others_In. split; [exact Hc0|]. now apply Nat.eqb_neq.
  - now apply (Ha c0 c0').
Qed.

Lemma homeOrInside_placement (w : Window R) (l l' : list (Coin R)) :
  map placement l = map placement l' -> homeOrInside w l -> homeOrInside w l'.
Proof.
  unfold homeOrInside. intros H Hh. revert l' H.
  induction Hh as [|c init l inits Hc _ IH]; intros [|c' l'] H;
    try discriminate H; constructor.
  - apply map_cons_eq in H as [E _]. apply placement_eq in E as [_ E].
    now rewrite <- E.
  - apply map_cons_eq in H as [_ H]. now apply IH.
Qed.

Lemma homeOrInside_move (w : Window R) (l : list (Coin R))
      (selected : nat) (zone : Position R) :
  homeOrInside w l -> insideBoard w zone ->
  homeOrInside w (map (fun coin =>
                         if (Coin.id coin =? selected)%nat
                         then Coin.mk (Coin.id coin) (Position.x zone) (Position.y zone) false
                         else Coin.mk (Coin.id coin) (Coin.x coin) (Coin.y coin) false)
                      l).
Proof.
  unfold homeOrInside. intros Hh Hz.
  induction Hh as [|c init l inits Hc _ IH]; simpl; constructor; [|exact IH].
  destruct (Coin.id c =? selected)%nat.
  - right. now destruct zone.
  - exact Hc.
Qed.

Lemma homeOrInside_initial (w : Window R) : homeOrInside w (initialCoins w).
Proof.
  unfold homeOrInside.
  induction (initialCoins w) as [|c l IH]; constructor; auto.
Qed.

Lemma step_gameInvariant (w : Window R) (saved : option nat) (e : Event) (s : State R) :
  gameInvariant w saved s -> selectionConsistent w s -> enabled s e ->
  gameInvariant w saved (step w e s).
Proof.
  intros (Hm & Ha & Hh & Hc & Hb & Hs) Hsel Hen.
  split; [now apply step_movedWithinCount|].
  destruct e as [coinId | zone |]; cbn [step].
  - pose proof (handleCoinClick_placement w coinId s) as Hp. symmetry in Hp.
    assert (Hf : moves (handleCoinClick w coinId s) = moves s /\
                 bestScore (handleCoinClick w coinId s) = bestScore s /\
                 isComplete (handleCoinClick w coinId s) = isComplete s).
    { unfold handleCoinClick.
      destruct (match selectedCoin s with Some sel => (sel =? coinId)%nat | None => false end);
        cbn [moves bestScore isComplete]; auto. }
    destruct Hf as (-> & -> & ->).
    repeat split; try assumption.
    + exact (apart_placement w _ _ Hp Ha).
    + exact (homeOrInside_placement w _ _ Hp Hh).
  - unfold handleZoneClick. unfold selectionConsistent in Hsel.
    destruct (selectedCoin s) as [selected|]; [|repeat split; assumption].
    destruct Hsel as [Hz _]. cbn [enabled] in Hen. rewrite Hz in Hen.
    cbn [coins moves bestScore isComplete].
    repeat split; try assumption.
    + now apply apart_move.
    + apply homeOrInside_move; [exact Hh|].
      apply findValidDropZones_In in Hen as (_ & _ & _ & _ & _ & Hacc).
      now apply accepted_exact in Hacc as [Hin _].
    + intro E. specialize (Hc E). lia.
  - unfold resetGame. cbn [coins moves bestScore isComplete].
    repeat split; try assumption.
    + apply initial_apart.
    + apply homeOrInside_initial.
    + discriminate.
Qed.

Lemma completionEffect_gameInvariant
      (w : Window R) (saved : option nat) (s s' : State R) :
  gameInvariant w saved s -> completionEffect w s = Some s' ->
  gameInvariant w saved s'.
Proof.
  intros (Hm & Ha & Hh & Hc & Hb & Hs). unfold completionEffect.
  destruct (isCompleted w (coins s)) as [b|] eqn:E; [|discriminate].
  destruct (b && negb (isComplete s)) eqn:Eb; intro H; injection H as <-;
    [|repeat split; assumption].
  apply andb_true_iff in Eb as [-> _].
  pose proof (complete_layout_needs_six w s Hm E) as H6.
  unfold gameInvariant. cbn [coins moves bestScore isComplete].
  refine (conj _ (conj Ha (conj Hh (conj (fun _ => H6) (conj _ _))))).
  - destruct Hm as (moved & H1 & H2 & H3). exists moved. cbn [coins moves]. auto.
  - destruct (beatsBest (moves s) (bestScore s)); [right; eauto | exact Hb].
  - intros b' Hb' Hpos. destruct (Hs b' Hb' Hpos) as (b0 & E0 & Hb0).
    rewrite E0. unfold beatsBest. destruct b0 as [|b0]; [lia|].
    destruct (moves s <? S b0)%nat eqn:El.
    + apply Nat.ltb_lt in El. exists (moves s). split; [reflexivity | lia].
    + exists (S b0). split; [reflexivity | lia].
Qed.

Lemma Reachable_gameInvariant (w : Window R) (saved : option nat) (s : State R) :
  Reachable w saved s -> gameInvariant w saved s.
Proof.
  induction 1 as [s H | s s' e Hr IH Hen H].
  - rewrite first_state_exact in H. injection H as <-.
    unfold gameInvariant, initialState. cbn [coins moves bestScore isComplete].
    repeat split.
    + exact (initialState_movedWithinCount w saved).
    + apply initial_apart.
    + apply homeOrInside_initial.
    + discriminate.
    + now left.
    + intros b -> Hb. exists b. split; [reflexivity | lia].
  - apply (completionEffect_gameInvariant w saved (step w e s) s'); [|exact H].
    apply step_gameInvariant; try assumption.
    exact (Reachable_consistent w saved s Hr).
Qed.

(** X13: no coin is ever put outside the board: in every reachable state
    each coin is where the initial layout has it or strictly inside the
    board with a margin of one radius. *)
Theorem Reachable_coins_inside (w : Window R) (saved : option nat) (s : State R) :
  Reachable w saved s ->
  forall i c init,
    nth_error (coins s) i = Some c ->
    nth_error (INITIAL_POSITIONS w) i = Some init ->
    at_ c = init \/ insideBoard w (at_ c).
Proof.
  intros Hr i c init Hc Hi.
  destruct (Reachable_gameInvariant w saved s Hr) as (_ & _ & Hh & _).
  unfold homeOrInside in Hh.
  assert (Hinit : forall j p, nth_error (INITIAL_POSITIONS w) j = Some p ->
                  exists c0, nth_error (initialCoins w) j = Some c0 /\ at_ c0 = p).
  { unfold initialCoins, mapi, INITIAL_POSITIONS. cbn [mapi_from].
    intros j p Hj.
    do 6 (destruct j as [|j];
          [injection Hj as <-; eexists; split; reflexivity|]).
    destruct j; discriminate Hj. }
  destruct (Hinit i init Hi) as (c0 & Hc0 & <-).
  clear Hinit Hi. revert i Hc Hc0.
  induction Hh as [|x y l l' Hxy _ IH]; intros [|i] Hc Hc0; try discriminate.
  - injection Hc as <-. injection Hc0 as <-. exact Hxy.
  - exact (IH i Hc Hc0).
Qed.

(** X14: a completion is only recorded from six moves on, a new best
    score is six or more, and the best score never rises above a positive
    score found in local storage. *)
Theorem Reachable_scores (w : Window R) (saved : option nat) (s : State R) :
  Reachable w saved s ->
  (isComplete s = true -> (6 <= moves s)%nat) /\
  (bestScore s = saved \/ exists m, bestScore s = Some m /\ (6 <= m)%nat) /\
  (forall b, saved = Some b -> (0 < b)%nat ->
             exists b', bestScore s = Some b' /\ (0 < b' <= b)%nat).
Proof.
  intro Hr.
  destruct (Reachable_gameInvariant w saved s Hr) as (_ & _ & _ & Hc & Hb & Hs).
  repeat split; assumption.
Qed.

End ExactGame.

(** * The clock text *)

Module ClockFacts.

Import Ascii String Clock.
Local Open Scope string_scope.

Lemma splitColon_app (a b : string) :
  (forall c, In c (list_ascii_of_string a) -> c <> ":"%char) ->
  splitColon (a ++ String ":" b) = Some (a, b).
Proof.
  induction a as [|c a IH]; simpl; intro H.
  - reflexivity.
  - destruct (Ascii.eqb_spec c ":") as [-> | _].
    + exfalso. apply (H ":"%char); [now left | reflexivity].
    + rewrite IH; [reflexivity|]. intros c' Hc'. apply H. now right.
Qed.

Lemma digits_no_colon (d : Decimal.uint) (c : ascii) :
  In c (list_ascii_of_string (DecimalString.NilEmpty.string_of_uint d)) ->
  c <> ":"%char.
Proof.
  induction d; simpl; try tauto;
    (intros [<- | H]; [discriminate | now apply IHd]).
Qed.

Lemma toString_no_colon (z : Z) (c : ascii) :
  (0 <= z)%Z -> In c (list_ascii_of_string (toString z)) -> c <> ":"%char.
Proof.
  intros Hz. unfold toString. destruct z as [|p|p]; [| |lia].
  - simpl. intros [<- | []]. discriminate.
  - simpl. unfold DecimalString.NilZero.string_of_uint.
    destruct (Pos.to_uint p) eqn:E;
      try (rewrite <- E; apply digits_no_colon).
    simpl. intros [<- | []]. discriminate.
Qed.

Lemma readInt_toString (z : Z) : readInt (toString z) = Some z.
Proof.
  unfold readInt, toString.
  rewrite DecimalString.NilZero.isi.
  - cbn [option_map]. f_equal. apply DecimalZ.of_to.
  - destruct z; simpl; try discriminate.
    intro H. injection H as H. now apply DecimalPos.Unsigned.to_uint_nonnil in H.
  - destruct z; simpl; try discriminate.
    intro H. injection H as H. now apply DecimalPos.Unsigned.to_uint_nonnil in H.
Qed.

Lemma readInt_seconds (n : nat) :
  (n < 60)%nat -> readInt (padStart 2 (toString (Z.of_nat n))) = Some (Z.of_nat n).
Proof.
  intro H.
  do 60 (destruct n as [|n]; [vm_compute; reflexivity|]).
  lia.
Qed.

Lemma formatTime_parts (ms : Z) :
  (0 <= ms)%Z ->
  formatTime ms
  = toString (ms / 60000) ++
    String ":" (padStart 2 (toString (Z.of_nat (Z.to_nat ((ms / 1000) mod 60)))))
  /\ (Z.to_nat ((ms / 1000) mod 60) < 60)%nat.
Proof.
  intro H. unfold formatTime. cbv zeta.
  assert (Hs : (0 <= ms / 1000)%Z) by (apply Z.div_pos; lia).
  pose proof (Z.mod_pos_bound (ms / 1000) 60 ltac:(lia)) as Hm.
  rewrite Z.rem_mod_nonneg by lia.
  rewrite Z.div_div by lia.
  rewrite Z2Nat.id by lia.
  split; [reflexivity | lia].
Qed.

Lemma parseClock_formatTime (ms : Z) :
  (0 <= ms)%Z ->
  parseClock (formatTime ms) = Some (ms / 60000, (ms / 1000) mod 60)%Z.
Proof.
  intro H. destruct (formatTime_parts ms H) as [E Hlt].
  rewrite E. unfold parseClock.
  rewrite splitColon_app.
  - rewrite readInt_toString, (readInt_seconds _ Hlt).
    rewrite Z2Nat.id; [reflexivity|].
    apply Z.mod_pos_bound. lia.
  - intro c. apply toString_no_colon. apply Z.div_pos; lia.
Qed.

(** X15: the clock text can be read back: for a whole number of
    milliseconds from 0 to below 2^53, where the model is the code, the
    number before the colon is the whole minutes and the number after it
    the remaining whole seconds, always below 60. *)
Theorem formatTime_roundtrip (ms : Z) :
  (0 <= ms < 2 ^ 53)%Z ->
  parseClock (formatTime ms) = Some (ms / 60000, (ms / 1000) mod 60)%Z /\
  (0 <= (ms / 1000) mod 60 < 60)%Z.
Proof.
  intros [H _]. split.
  - now apply parseClock_formatTime.
  - apply Z.mod_pos_bound. lia.
Qed.

(** X16: the clock text changes exactly when the whole second changes:
    two whole numbers of milliseconds from 0 to below 2^53 give the same
    text if and only if they lie in the same second. *)
Theorem formatTime_same_second (a b : Z) :
  (0 <= a < 2 ^ 53)%Z -> (0 <= b < 2 ^ 53)%Z ->
  (formatTime a = formatTime b <-> (a / 1000 = b / 1000)%Z).
Proof.
  intros [Ha _] [Hb _]. split.
  - intro E. apply (f_equal parseClock) in E.
    rewrite (parseClock_formatTime a Ha), (parseClock_formatTime b Hb) in E.
    injection E as E1 E2.
    rewrite (Z.div_mod (a / 1000) 60), (Z.div_mod (b / 1000) 60) by lia.
    rewrite !Z.div_div by lia. change (1000 * 60)%Z with 60000%Z.
    now rewrite E1, E2.
  - intro E. unfold formatTime. now rewrite E.
Qed.

Example clock_texts :
  formatTime 0 = "0:00" /\
  formatTime 83500 = "1:23" /\
  formatTime 3725000 = "62:05" /\
  formatTime (-1) = "-1:-1".
Proof. vm_compute. repeat split. Qed.

End ClockFacts.

(** * The distance tests as the program computes them *)

Section ComputedTests.

Context {T : Type} {NumT : Number T}.
Variable window : Window T.

Lemma nearSlot_found (coins : list (Coin T)) (i : nat) :
  map (@Coin.id T) coins = seq 0 6 -> i < 6 ->
  exists coin target,
    find (fun c => Coin.id c =? i) coins = Some coin /\
    nth_error (TARGET_POSITIONS window) i = Some target /\
    nearSlot window coins i = (getDistance (at_ coin) target .< num 20).
Proof.
  intros H Hi.
  destruct coins as [|[i0 x0 y0 f0] [|[i1 x1 y1 f1] [|[i2 x2 y2 f2]
    [|[i3 x3 y3 f3] [|[i4 x4 y4 f4] [|[i5 x5 y5 f5] [|c6 l]]]]]]];
    try discriminate H.
  simpl in H. injection H as -> -> -> -> -> ->.
  do 6 (destruct i as [|i]; [eexists; eexists; repeat split; reflexivity|]).
  lia.
Qed.

(** C1, amended: on a layout of six coins with the identities 0 to 5 the
    completion check answers true exactly when, for every identity, the
    distance of its coin to the target slot of the same number, as the
    program computes it (the rounded square root of the rounded sum of
    the rounded squares), compares below 20; and false exactly when for
    some identity that comparison fails.  Holds for every arithmetic,
    that of doubles included. *)
Theorem isCompleted_iff_computed_near (coins : list (Coin T)) :
  map (@Coin.id T) coins = seq 0 6 ->
  (isCompleted window coins = Some true <->
   forall i, i < 6 ->
     exists coin target,
       find (fun c => Coin.id c =? i) coins = Some coin /\
       nth_error (TARGET_POSITIONS window) i = Some target /\
       (getDistance (at_ coin) target .< num 20) = true)
  /\
  (isCompleted window coins = Some false <->
   exists i coin target,
     i < 6 /\
     find (fun c => Coin.id c =? i) coins = Some coin /\
     nth_error (TARGET_POSITIONS window) i = Some target /\
     (getDistance (at_ coin) target .< num 20) = false).
Proof.
  intro H. rewrite (isCompleted_six window coins H), !Some_eq_iff. split; split.
  - intros E i Hi. rewrite forallb_forall in E.
    destruct (nearSlot_found coins i H Hi) as (coin & target & Hc & Ht & Hn).
    exists coin, target. repeat split; try assumption.
    rewrite <- Hn. apply E. apply in_seq. lia.
  - intro E. apply forallb_forall. intros i Hi. apply in_seq in Hi.
    destruct (E i ltac:(lia)) as (coin & target & Hc & Ht & Hd).
    unfold nearSlot. now rewrite Hc, Ht.
  - intro E. apply forallb_false_exists in E as (i & Hi & E).
    apply in_seq in Hi.
    destruct (nearSlot_found coins i H ltac:(lia)) as (coin & target & Hc & Ht & Hn).
    exists i, coin, target. repeat split; try assumption; try lia.
    now rewrite <- Hn.
  - intros (i & coin & target & Hi & Hc & Ht & Hd).
    apply forallb_false_exists. exists i. split; [apply in_seq; lia|].
    unfold nearSlot. now rewrite Hc, Ht.
Qed.

Lemma others_found (coins : list (Coin T)) (coinId : nat) (c : Coin T) :
  In c (filter (fun c => negb (Coin.id c =? coinId)) coins)
  <-> In c coins /\ Coin.id c <> coinId.
Proof.
  rewrite filter_In, negb_true_iff, Nat.eqb_neq. tauto.
Qed.

(** C2, amended: every zone returned by [findValidDropZones] has passed
    the program's own tests, computed in its arithmetic: for every coin
    other than the selected one the computed distance to the zone does
    not compare below 1.5 radii, and the zone compares strictly inside
    the rectangle from [radius] to the computed [board_width - radius] by
    [radius] to the computed [board_height - radius].  Holds for every
    arithmetic, that of doubles included. *)
Theorem zones_pass_computed_tests (coins : list (Coin T)) (coinId : nat) :
  Forall (fun zone =>
            (forall c, In c coins -> Coin.id c <> coinId ->
                       (getDistance (at_ c) zone
                        .< COIN_RADIUS window .* (num 3 ./ num 2)) = false) /\
            (COIN_RADIUS window .< Position.x zone) = true /\
            (Position.x zone .< BOARD_WIDTH window .- COIN_RADIUS window) = true /\
            (COIN_RADIUS window .< Position.y zone) = true /\
            (Position.y zone .< BOARD_HEIGHT window .- COIN_RADIUS window) = true)
         (findValidDropZones window coins coinId).
Proof.
  apply Forall_forall. intros zone Hz.
  apply findValidDropZones_In in Hz as (c1 & c2 & _ & _ & _ & Hacc).
  unfold accepted, inBounds in Hacc.
  apply andb_true_iff in Hacc as [Hin Hocc].
  apply andb_true_iff in Hin as [Hin Hy2].
  apply andb_true_iff in Hin as [Hin Hy1].
  apply andb_true_iff in Hin as [Hx1 Hx2].
  split; [|repeat split; assumption].
  intros c Hc Hid. apply negb_true_iff in Hocc. unfold occupied in Hocc.
  apply (existsb_false_forall _ _ Hocc c).
  apply others_found. split; assumption.
Qed.

Lemma candidatePositions_guards (coin1 coin2 : Coin T) (pos : Position T) :
  In pos (candidatePositions window coin1 coin2) ->
  (getDistance (at_ coin1) (at_ coin2) .<= COIN_RADIUS window .* num 4) = true /\
  (getDistance (at_ coin2) (at_ coin1) .> num 0) = true.
Proof.
  unfold candidatePositions.
  destruct (getDistance (at_ coin1) (at_ coin2) .<= COIN_RADIUS window .* num 4);
    [|intros []].
  change (sqrt ((Coin.x coin2 .- Coin.x coin1) .* (Coin.x coin2 .- Coin.x coin1)
                .+ (Coin.y coin2 .- Coin.y coin1) .* (Coin.y coin2 .- Coin.y coin1)))
    with (getDistance (at_ coin2) (at_ coin1)).
  destruct (getDistance (at_ coin2) (at_ coin1) .> num 0); [|intros []].
  intros _. split; reflexivity.
Qed.

(** X8: every zone returned by [findValidDropZones] is one of the
    candidate positions of two coins of the layout other than the
    selected one, whose computed distance compares at most four radii
    and above zero: the selected coin never takes part in a zone of its
    own, and no zone comes from a pair further apart. *)
Theorem zones_come_from_close_pairs (coins : list (Coin T)) (coinId : nat) :
  Forall (fun zone =>
            exists coin1 coin2,
              In coin1 coins /\ In coin2 coins /\
              Coin.id coin1 <> coinId /\ Coin.id coin2 <> coinId /\
              In zone (candidatePositions window coin1 coin2) /\
              (getDistance (at_ coin1) (at_ coin2)
               .<= COIN_RADIUS window .* num 4) = true /\
              (getDistance (at_ coin2) (at_ coin1) .> num 0) = true)
         (findValidDropZones window coins coinId).
Proof.
  apply Forall_forall. intros zone Hz.
  apply findValidDropZones_In in Hz as (c1 & c2 & H1 & H2 & Hc & _).
  apply others_found in H1 as [H1 N1]. apply others_found in H2 as [H2 N2].
  destruct (candidatePositions_guards c1 c2 zone Hc) as [G1 G2].
  exists c1, c2. repeat split; assumption.
Qed.

End ComputedTests.

(** * The distance claims against the exact values of doubles *)

(** C1 as stated fails in doubles: a layout with the identities 0 to 5 in
    which every coin is at exact Euclidean distance below 20 from its
    slot (coin 0 by 1.4e-15, the others on their slots), and yet the
    check answers false: the computed distance of coin 0 rounds to 20. *)
Lemma exactly_near_yet_not_completed :
  map (@Coin.id float) nearLayout = seq 0 6 /\
  (forall i, i < 6 ->
     exists coin target,
       find (fun c => Coin.id c =? i) nearLayout = Some coin /\
       nth_error (TARGET_POSITIONS desktop) i = Some target /\
       exactBelow 20 1 (at_ coin) target = true) /\
  isCompleted desktop nearLayout = Some false.
Proof.
  split; [reflexivity|]. split; [|vm_compute; reflexivity].
  intros i Hi.
  do 6 (destruct i as [|i];
        [eexists; eexists; split; [reflexivity|];
         split; [reflexivity | vm_compute; reflexivity]|]).
  lia.
Qed.

(** C2 as stated fails in doubles: with coin 0 selected the zone
    (260, 200) is returned although coin 3 is at exact Euclidean distance
    below 45, that is 1.5 radii, from it: the computed distance rounds
    to 45. *)
Lemma zone_returned_inside_clearance :
  map (@Coin.id float) crowdedLayout = seq 0 6 /\
  In (Position.mk (num 260) (num 200)) (findValidDropZones desktop crowdedLayout 0) /\
  In crowdCoin3 crowdedLayout /\ Coin.id crowdCoin3 <> 0 /\
  COIN_RADIUS desktop .* (num 3 ./ num 2) = num 45 /\
  exactBelow 45 1 (at_ crowdCoin3) (Position.mk (num 260) (num 200)) = true.
Proof.
  split; [reflexivity|].
  split; [vm_compute; left; reflexivity|].
  split; [vm_compute; tauto|].
  split; [discriminate|].
  split; vm_compute; reflexivity.
Qed.






(** * The statements at concrete inputs *)

Lemma isCompleted_iff_computed_near_witness :
  map (@Coin.id float) nearLayout = seq 0 6 /\
  (isCompleted desktop nearLayout = Some false <->
   exists i coin target,
     i < 6 /\
     find (fun c => Coin.id c =? i) nearLayout = Some coin /\
     nth_error (TARGET_POSITIONS desktop) i = Some target /\
     (getDistance (at_ coin) target .< num 20) = false).
Proof.
  split; [reflexivity|].
  exact (proj2 (isCompleted_iff_computed_near desktop nearLayout eq_refl)).
Defined.

(** What the check of [desktop_allTangentWithin_one] runs over: the 45
    states within one move of the initial state and the 1142 candidates
    of their pairs of coins. *)
Example desktop_play_examined :
  length (statesWithin 1 (initialState desktop None)) = 45 /\
  length (flat_map (fun s =>
                      flat_map (fun p => candidatePositions desktop (fst p) (snd p))
                               (pairsOf (coins s)))
                   (statesWithin 1 (initialState desktop None))) = 1142.
Proof. vm_compute. split; reflexivity. Qed.


Lemma isCompleted_iff_all_near_witness :
  map (@Coin.id R) (initialCoins desktopR) = seq 0 6 /\
  (isCompleted desktopR (initialCoins desktopR) = Some false <->
   exists i coin target,
     (i < 6)%nat /\
     find (fun c => Coin.id c =? i)%nat (initialCoins desktopR) = Some coin /\
     nth_error (TARGET_POSITIONS desktopR) i = Some target /\
     (20 <= Euclid (at_ coin) target)%R).
Proof.
  split; [reflexivity|].
  exact (proj2 (isCompleted_iff_all_near desktopR (initialCoins desktopR) eq_refl)).
Defined.

Lemma candidates_tangent_witness :
  (0 < Euclid (at_ (coinAt 1 0 0)) (at_ (coinAt 2 60 0))
   <= 4 * COIN_RADIUS desktopR)%R /\
  length (candidatePositions desktopR (coinAt 1 0 0) (coinAt 2 60 0)) = 2.
Proof.
  assert (H : (0 < Euclid (at_ (coinAt 1 0 0)) (at_ (coinAt 2 60 0))
               <= 4 * COIN_RADIUS desktopR)%R).
  { unfold Euclid, COIN_RADIUS, Rsqr; cbn.
    replace ((0 - 60) * (0 - 60) + (0 - 0) * (0 - 0))%R with (60 * 60)%R by ring.
    rewrite sqrt_square by lra.
    rewrite (proj2 (Rltb_false 1024 768)) by lra. lra. }
  split; [exact H|].
  exact (proj1 (candidates_tangent desktopR _ _ H)).
Defined.

Lemma coincident_pair_skipped_witness :
  Euclid (at_ (coinAt 1 100 100)) (at_ (coinAt 2 100 100)) = 0%R /\
  candidatePositionsChecked desktopR (coinAt 1 100 100) (coinAt 2 100 100) = Some [].
Proof.
  assert (H : Euclid (at_ (coinAt 1 100 100)) (at_ (coinAt 2 100 100)) = 0%R).
  { unfold Euclid, Rsqr; cbn.
    replace ((100 - 100) * (100 - 100) + (100 - 100) * (100 - 100))%R with 0%R by ring.
    apply sqrt_0. }
  split; [exact H|].
  exact (proj1 (coincident_pair_skipped desktopR [] _ _ H)).
Defined.

Lemma handleZoneClick_moves_one_coin_witness :
  selectedCoin (handleCoinClick desktop 0 (initialState desktop None)) = Some 0 /\
  moves (moveCoin desktop 0 (nthZone 1 (initialState desktop None))
           (initialState desktop None)) = 1.
Proof.
  split; [reflexivity|].
  exact (proj1 (handleZoneClick_moves_one_coin
                  (nthZone 1 (initialState desktop None))
                  (handleCoinClick desktop 0 (initialState desktop None)) 0 eq_refl)).
Defined.

Lemma step_preserves_identities_witness :
  map (@Coin.id float) (coins (initialState desktop None)) = seq 0 6 /\
  length (coins (step desktop (CoinClick 3) (initialState desktop None))) = 6.
Proof.
  split; [reflexivity|].
  exact (proj1 (step_preserves_identities desktop (CoinClick 3)
                  (initialState desktop None) eq_refl)).
Defined.

Lemma findValidDropZones_same_layout_witness :
  map placement (initialCoins desktop)
  = map placement (coins (handleCoinClick desktop 0 (initialState desktop None))) /\
  findValidDropZones desktop (initialCoins desktop) 0
  = findValidDropZones desktop
      (coins (handleCoinClick desktop 0 (initialState desktop None))) 0.
Proof.
  split; [reflexivity|].
  exact (proj1 (findValidDropZones_same_layout desktop (initialCoins desktop)
                  (coins (handleCoinClick desktop 0 (initialState desktop None)))
                  0 eq_refl)).
Defined.

Lemma findValidDropZones_unknown_coin_witness :
  ~ In 6 (map (@Coin.id float) (initialCoins desktop)) /\
  findValidDropZones desktop (initialCoins desktop) 6 = [].
Proof.
  assert (H : ~ In 6 (map (@Coin.id float) (initialCoins desktop))).
  { cbn. lia. }
  split; [exact H|].
  exact (findValidDropZones_unknown_coin desktop (initialCoins desktop) 6 H).
Defined.

Lemma handleZoneClick_nothing_selected_witness :
  selectedCoin (initialState desktop None) = None /\
  handleZoneClick (nthZone 1 (initialState desktop None)) (initialState desktop None)
  = initialState desktop None.
Proof.
  split; [reflexivity|].
  exact (handleZoneClick_nothing_selected _ (initialState desktop None) eq_refl).
Defined.

(** * The program run in doubles on the desktop board *)

(** Coin 0 is offered five zones in the initial layout. *)
Example desktop_offers_five_zones :
  length (offered desktop 0 (initialState desktop None)) = 5.
Proof. vm_compute. reflexivity. Qed.

(** Each of them is 45 units or more from the five other coins and inside
    the board with a margin of one radius. *)
Example desktop_zones_clear_and_inside :
  forallb (fun zone =>
             forallb (fun c => num 45 .<= getDistance (at_ c) zone)
                     (tl (initialCoins desktop))
             && (num 30 .<= Position.x zone) && (Position.x zone .<= num 570)
             && (num 30 .<= Position.y zone) && (Position.y zone .<= num 370))
          (offered desktop 0 (initialState desktop None)) = true.
Proof. vm_compute. reflexivity. Qed.

(** The candidates of coins 1 and 3 are 60 units from both, up to one part
    in 10^12. *)
Example desktop_candidates_tangent :
  let coin1 := nth 1 (initialCoins desktop) (coinAt 0 0 0) in
  let coin3 := nth 3 (initialCoins desktop) (coinAt 0 0 0) in
  let eps := num 1 ./ num 1000000000000 in
  length (candidatePositions desktop coin1 coin3) = 2 /\
  forallb (fun pos =>
             forallb (fun c =>
                        (num 60 .- eps .< getDistance pos (at_ c))
                        && (getDistance pos (at_ c) .< num 60 .+ eps))
                     [coin1; coin3])
          (candidatePositions desktop coin1 coin3) = true.
Proof. vm_compute. split; reflexivity. Qed.

(** Two coins on the same spot: no candidate, no division by zero. *)
Example desktop_coincident_pair :
  candidatePositionsChecked desktop (coinAt 1 100 100) (coinAt 2 100 100) = Some []
  /\ pairZones desktop [coinAt 1 100 100; coinAt 2 100 100]
       (coinAt 1 100 100) (coinAt 2 100 100) = [].
Proof. vm_compute. split; reflexivity. Qed.

(** The check passes on the target layout and fails once coins 0 and 1
    have exchanged their slots. *)
Example desktop_target_layout_complete :
  isCompleted desktop (layoutAt (TARGET_POSITIONS desktop)) = Some true.
Proof. vm_compute. reflexivity. Qed.

Example desktop_swapped_layout_incomplete :
  map (@Coin.id float) swappedTargets = seq 0 6 /\
  isCompleted desktop swappedTargets = Some false.
Proof. vm_compute. split; reflexivity. Qed.

(** A seventh coin makes the check throw once the first six have passed. *)
Example desktop_seven_coins_throw :
  isCompleted desktop
    (layoutAt (TARGET_POSITIONS desktop) ++ [coinAt 6 0 0]) = None.
Proof. vm_compute. reflexivity. Qed.

(** * The further statements at concrete inputs *)

Lemma moveCoin_unselected {T} {NumT : Number T} (w : Window T)
      (l : list (Coin T)) (n : nat) (b : option nat) (c : bool)
      (coinId : nat) (zone : Position T) :
  moveCoin w coinId zone (mkState l n b c None [])
  = mkState (map (fun coin =>
                    if Coin.id coin =? coinId
                    then Coin.mk (Coin.id coin) (Position.x zone) (Position.y zone) false
                    else Coin.mk (Coin.id coin) (Coin.x coin) (Coin.y coin) false)
                 l)
            (n + 1) b c None [].
Proof.
  unfold moveCoin, handleCoinClick, handleZoneClick.
  cbn [selectedCoin coins moves bestScore isComplete].
  rewrite map_map. reflexivity.
Qed.

Lemma run_move {T} {NumT : Number T} (w : Window T)
      (coinId : nat) (zone : Position T) (rest : list Event) (s : State T) :
  run w (CoinClick coinId :: ZoneClick zone :: rest) s
  = run w rest (moveCoin w coinId zone s).
Proof. reflexivity. Qed.

Lemma near_self (a b : R) :
  Rltb (R_sqrt.sqrt ((a - a) * (a - a) + (b - b) * (b - b))) 20 = true.
Proof.
  apply Rltb_true.
  replace ((a - a) * (a - a) + (b - b) * (b - b))%R with 0%R by ring.
  rewrite sqrt_0. lra.
Qed.

Lemma sixMoves_run (w : Window R) (saved : option nat) :
  run w (sixMoves w) (initialState w saved)
  = mkState (layoutAt (TARGET_POSITIONS w)) 6 saved false None [].
Proof.
  unfold sixMoves, TARGET_POSITIONS.
  cbn [combine seq flat_map app fst snd].
  unfold initialState, initialCoins, layoutAt, mapi, INITIAL_POSITIONS.
  cbn [mapi_from].
  do 6 (rewrite run_move, moveCoin_unselected;
        cbn [map Coin.id Nat.eqb Coin.x Coin.y Position.x Position.y Nat.add]).
  reflexivity.
Qed.

Lemma targets_completed (w : Window R) :
  isCompleted w (layoutAt (TARGET_POSITIONS w)) = Some true.
Proof.
  unfold isCompleted, every, nearTarget, layoutAt, mapi, TARGET_POSITIONS, pow2.
  cbn [mapi_from every_from nth_error Coin.x Coin.y Position.x Position.y].
  cbn [sqrt add sub mul ltb num Number_R].
  rewrite !near_self. reflexivity.
Qed.

Lemma desktop_first_reachable :
  Reachable desktop None (initialState desktop None).
Proof. apply Reachable_first. vm_compute. reflexivity. Qed.

Lemma desktopR_first_reachable :
  Reachable desktopR None (initialState desktopR None).
Proof. apply Reachable_first. apply first_state_exact. Qed.

Lemma completed_needs_six_moves_witness :
  isCompleted desktopR
    (coins (run desktopR (sixMoves desktopR) (initialState desktopR None))) = Some true
  /\ 6 <= moves (run desktopR (sixMoves desktopR) (initialState desktopR None)).
Proof.
  assert (H : isCompleted desktopR
                (coins (run desktopR (sixMoves desktopR) (initialState desktopR None)))
              = Some true).
  { rewrite sixMoves_run. cbn [coins]. apply targets_completed. }
  split; [exact H|].
  exact (completed_needs_six_moves desktopR (sixMoves desktopR) None H).
Defined.

Lemma Reachable_selectionConsistent_witness :
  Reachable desktop None (initialState desktop None) /\
  validDropZones (initialState desktop None) = [].
Proof.
  split; [exact desktop_first_reachable|].
  exact (proj1 (proj1 (Reachable_selectionConsistent desktop None _
                         desktop_first_reachable) eq_refl)).
Defined.

Lemma select_then_deselect_witness :
  Reachable desktop None (initialState desktop None) /\
  selectedCoin (initialState desktop None) = None /\
  exists s1,
    turn desktop (CoinClick 2) (initialState desktop None) = Some s1 /\
    selectedCoin s1 = Some 2 /\
    turn desktop (CoinClick 2) s1 = Some (initialState desktop None).
Proof.
  split; [exact desktop_first_reachable|]. split; [reflexivity|].
  exact (select_then_deselect desktop None _ 2 desktop_first_reachable eq_refl).
Defined.

Lemma completion_latches_witness :
  isComplete solved = true /\
  CoinClick (T:=float) 0 <> Reset /\
  turn desktop (CoinClick 0) solved = Some solvedTapped /\
  isComplete solvedTapped = true.
Proof.
  assert (H : turn desktop (CoinClick 0) solved = Some solvedTapped)
    by (vm_compute; reflexivity).
  assert (N : CoinClick (T:=float) 0 <> Reset) by discriminate.
  split; [reflexivity|]. split; [exact N|]. split; [exact H|].
  exact (proj1 (completion_latches desktop (CoinClick 0) solved solvedTapped
                  eq_refl N H)).
Defined.

Lemma findValidDropZones_ignores_selected_witness :
  sameButCoin 0 (initialCoins desktop)
    (coin0At desktop (nthZone 1 (initialState desktop None))) /\
  findValidDropZones desktop (initialCoins desktop) 0
  = findValidDropZones desktop
      (coin0At desktop (nthZone 1 (initialState desktop None))) 0.
Proof.
  assert (H : sameButCoin 0 (initialCoins desktop)
                (coin0At desktop (nthZone 1 (initialState desktop None)))).
  { unfold sameButCoin, coin0At, initialCoins, mapi, INITIAL_POSITIONS.
    cbn [mapi_from tl].
    repeat (constructor;
            [split; [reflexivity | first [left; reflexivity | right; reflexivity]]|]).
    constructor. }
  split; [exact H|].
  exact (findValidDropZones_ignores_selected desktop 0 _ _ H).
Defined.

Lemma candidatePositions_at_four_radii_witness :
  Euclid (at_ (coinAt 1 0 0)) (at_ (coinAt 2 120 0)) = (4 * COIN_RADIUS desktopR)%R /\
  candidatePositions desktopR (coinAt 1 0 0) (coinAt 2 120 0)
  = [Position.mk ((0 + 120) / 2)%R ((0 + 0) / 2)%R;
     Position.mk ((0 + 120) / 2)%R ((0 + 0) / 2)%R].
Proof.
  assert (H : Euclid (at_ (coinAt 1 0 0)) (at_ (coinAt 2 120 0))
              = (4 * COIN_RADIUS desktopR)%R).
  { unfold Euclid, COIN_RADIUS, Rsqr; cbn.
    replace ((0 - 120) * (0 - 120) + (0 - 0) * (0 - 0))%R with (120 * 120)%R by ring.
    rewrite sqrt_square by lra.
    rewrite (proj2 (Rltb_false 1024 768)) by lra. lra. }
  split; [exact H|].
  exact (candidatePositions_at_four_radii desktopR _ _ H).
Defined.

Lemma small_board_offers_nothing_witness :
  (BOARD_WIDTH flatWindow <= 2 * COIN_RADIUS flatWindow
   \/ BOARD_HEIGHT flatWindow <= 2 * COIN_RADIUS flatWindow)%R /\
  findValidDropZones flatWindow (initialCoins flatWindow) 0 = [].
Proof.
  assert (H : (BOARD_WIDTH flatWindow <= 2 * COIN_RADIUS flatWindow
               \/ BOARD_HEIGHT flatWindow <= 2 * COIN_RADIUS flatWindow)%R).
  { right. unfold BOARD_HEIGHT, COIN_RADIUS; cbn.
    rewrite (proj2 (Rltb_false 1024 768)) by lra.
    unfold Rmin. destruct (Rle_dec 400 (100 * (1 / 2))); lra. }
  split; [exact H|].
  exact (small_board_offers_nothing flatWindow _ 0 H).
Defined.

Lemma Reachable_coins_inside_witness :
  Reachable desktopR None (initialState desktopR None) /\
  (at_ (nth 0 (initialCoins desktopR) (coinAt 0 0 0))
   = Position.mk (centerX desktopR) (centerY desktopR - 60)%R
   \/ insideBoard desktopR (at_ (nth 0 (initialCoins desktopR) (coinAt 0 0 0)))).
Proof.
  split; [exact desktopR_first_reachable|].
  exact (Reachable_coins_inside desktopR None _ desktopR_first_reachable
           0 _ _ eq_refl eq_refl).
Defined.

Lemma Reachable_scores_witness :
  Reachable desktopR (Some 9) (initialState desktopR (Some 9)) /\
  exists b', bestScore (initialState desktopR (Some 9)) = Some b' /\ 0 < b' <= 9.
Proof.
  assert (H : Reachable desktopR (Some 9) (initialState desktopR (Some 9)))
    by (apply Reachable_first, first_state_exact).
  split; [exact H|].
  apply (proj2 (proj2 (Reachable_scores desktopR (Some 9) _ H)) 9 eq_refl).
  lia.
Defined.

Lemma formatTime_roundtrip_witness :
  (0 <= 83500 < 2 ^ 53)%Z /\
  Clock.parseClock (Clock.formatTime 83500)
  = Some (83500 / 60000, (83500 / 1000) mod 60)%Z.
Proof.
  assert (H : (0 <= 83500 < 2 ^ 53)%Z) by lia.
  split; [exact H|].
  exact (proj1 (ClockFacts.formatTime_roundtrip 83500 H)).
Defined.

Lemma formatTime_same_second_witness :
  (0 <= 83500 < 2 ^ 53)%Z /\ (0 <= 83999 < 2 ^ 53)%Z /\
  Clock.formatTime 83500 = Clock.formatTime 83999.
Proof.
  assert (Ha : (0 <= 83500 < 2 ^ 53)%Z) by lia.
  assert (Hb : (0 <= 83999 < 2 ^ 53)%Z) by lia.
  split; [exact Ha|]. split; [exact Hb|].
  apply (ClockFacts.formatTime_same_second 83500 83999 Ha Hb). reflexivity.
Defined.

Lemma desktopSelected_reachable : Reachable desktop None desktopSelected.
Proof.
  apply (Reachable_turn desktop None (initialState desktop None) desktopSelected
           (CoinClick 0) desktop_first_reachable).
  - cbn. tauto.
  - vm_compute. reflexivity.
Qed.

Lemma zone_tap_moves_selected_witness :
  Reachable desktop None desktopSelected /\
  enabled desktopSelected (ZoneClick (nthZone 1 (initialState desktop None))) /\
  turn desktop (ZoneClick (nthZone 1 (initialState desktop None))) desktopSelected
  = Some desktopMoved /\
  moves desktopMoved = 1.
Proof.
  assert (He : enabled desktopSelected
                 (ZoneClick (nthZone 1 (initialState desktop None))))
    by (vm_compute; tauto).
  assert (Ht : turn desktop (ZoneClick (nthZone 1 (initialState desktop None)))
                 desktopSelected = Some desktopMoved)
    by (vm_compute; reflexivity).
  split; [exact desktopSelected_reachable|]. split; [exact He|]. split; [exact Ht|].
  destruct (zone_tap_moves_selected desktop None _ _ _
              desktopSelected_reachable He Ht) as (k & _ & _ & Hm & _).
  exact Hm.
Defined.
